(** * Diagnosys front-end: the CSV normalizer, the fetch path and the search filter

    A shallow embedding of [src/script.js]: [parseCSV] with the string
    primitives it calls, [fetchData] and [fetchAndLoadData] over an explicit
    network oracle and an explicit application state, and [filterData].

    Strings.  A JavaScript string is a sequence of 16-bit code units.  The
    development works with the code units U+0000..U+00FF, carried by
    [Ascii.ascii]: on that range [toLowerCase], [trim] and the two regular
    expressions of the source are the functions below (no code unit of the
    range lower-cases to one outside it).

    Objects.  A record of the parser is a plain JavaScript object with string
    values; it is kept as the list of its own properties in creation order,
    and enumerated ([Object_entries]) the way OrdinaryOwnPropertyKeys does:
    array-index keys first, ascending, then the other keys in creation
    order. *)

From Stdlib Require Import List String Ascii Bool Arith NArith ZArith Lia.
From Stdlib Require Import DecimalString DecimalN Floats Uint63.
Import ListNotations.
Open Scope string_scope.

(* ================================================================== *)
(** ** String primitives *)

(** The line feed, ['\n'] in the source. *)
Definition LF : ascii := ascii_of_nat 10.
Definition comma : ascii := ascii_of_nat 44.

(** White space and line terminators, the characters [String.prototype.trim]
    strips and [\s] matches: TAB, LF, VT, FF, CR, SPACE and NO-BREAK SPACE. *)
Definition isWhiteSpace (c : ascii) : bool :=
  let n := N_of_ascii c in
  (((9 <=? n) && (n <=? 13)) || (n =? 32) || (n =? 160))%N.

(** The character class [[a-z0-9]]. *)
Definition isLowerAlnum (c : ascii) : bool :=
  let n := N_of_ascii c in
  (((97 <=? n) && (n <=? 122)) || ((48 <=? n) && (n <=? 57)))%N.

(** Lower-casing of one code unit: A-Z, and the Latin-1 capitals U+00C0..U+00DE
    but the multiplication sign U+00D7. *)
Definition lowerChar (c : ascii) : ascii :=
  let n := N_of_ascii c in
  if (((65 <=? n) && (n <=? 90)) ||
      ((192 <=? n) && (n <=? 222) && negb (n =? 215)))%N
  then ascii_of_N (n + 32) else c.

Fixpoint toLowerCase (s : string) : string :=
  match s with
  | EmptyString => EmptyString
  | String c s' => String (lowerChar c) (toLowerCase s')
  end.

Fixpoint trimStart (s : string) : string :=
  match s with
  | EmptyString => EmptyString
  | String c s' => if isWhiteSpace c then trimStart s' else s
  end.

Fixpoint trimEnd (s : string) : string :=
  match s with
  | EmptyString => EmptyString
  | String c s' =>
      match trimEnd s' with
      | EmptyString => if isWhiteSpace c then EmptyString else String c EmptyString
      | r => String c r
      end
  end.

(** [s.trim()] *)
Definition trim (s : string) : string := trimEnd (trimStart s).

(** [s.replace(/re/g, '')] for a regular expression [re] that matches single
    characters (or runs of them): every character [drop] accepts goes. *)
Fixpoint removeChars (drop : ascii -> bool) (s : string) : string :=
  match s with
  | EmptyString => EmptyString
  | String c s' =>
      if drop c then removeChars drop s' else String c (removeChars drop s')
  end.

(** [s.split(sep)] for a one-character separator; [''.split(sep)] is [['']]. *)
Fixpoint split (sep : ascii) (s : string) : list string :=
  match s with
  | EmptyString => [EmptyString]
  | String c s' =>
      if Ascii.eqb c sep then EmptyString :: split sep s'
      else match split sep s' with
           | w :: ws => String c w :: ws
           | [] => [String c EmptyString]
           end
  end.

(** [arr.join(sep)] *)
Definition join (sep : string) (l : list string) : string := String.concat sep l.

(** [s.includes(q)] *)
Fixpoint includes (s q : string) : bool :=
  String.prefix q s ||
  match s with
  | EmptyString => false
  | String _ s' => includes s' q
  end.

(** Decimal form of a number, as template literals print it. *)
Definition N_to_string (n : N) : string := NilEmpty.string_of_uint (N.to_uint n).

(* ================================================================== *)
(** ** Objects *)

(** Own properties, in creation order. *)
Definition object : Type := list (string * string).

(** [obj[k] = v]: an existing property keeps its place, a new one goes last. *)
Fixpoint obj_set (k v : string) (o : object) : object :=
  match o with
  | [] => [(k, v)]
  | (k', v') :: o' =>
      if String.eqb k' k then (k', v) :: o' else (k', v') :: obj_set k v o'
  end.

(** [obj[k]] on own properties; [None] is [undefined]. *)
Fixpoint obj_get (k : string) (o : object) : option string :=
  match o with
  | [] => None
  | (k', v') :: o' => if String.eqb k' k then Some v' else obj_get k o'
  end.

Definition digitVal (c : ascii) : option N :=
  let n := N_of_ascii c in
  if ((48 <=? n) && (n <=? 57))%N then Some (n - 48)%N else None.

Fixpoint parseDigits (acc : N) (s : string) : option N :=
  match s with
  | EmptyString => Some acc
  | String c s' =>
      match digitVal c with
      | Some d => parseDigits (10 * acc + d)%N s'
      | None => None
      end
  end.

(** A property key is an array index when it is the canonical decimal form
    of an integer below 2^32 - 1. *)
Definition arrayIndex (k : string) : option N :=
  match k with
  | EmptyString => None
  | String c rest =>
      if Ascii.eqb c "0"%char && negb (String.eqb rest EmptyString) then None
      else match parseDigits 0%N k with
           | Some n => if (n <? 4294967295)%N then Some n else None
           | None => None
           end
  end.

Definition isArrayIndex (k : string) : bool :=
  match arrayIndex k with Some _ => true | None => false end.

Fixpoint insertByIndex (e : N * (string * string))
    (l : list (N * (string * string))) : list (N * (string * string)) :=
  match l with
  | [] => [e]
  | e' :: l' =>
      if (fst e <=? fst e')%N then e :: l else e' :: insertByIndex e l'
  end.

Definition indexEntries (o : object) : list (N * (string * string)) :=
  flat_map (fun kv => match arrayIndex (fst kv) with
                      | Some n => [(n, kv)]
                      | None => []
                      end) o.

(** [Object.entries(o)]: array-index keys in ascending order, then the
    others in creation order. *)
Definition Object_entries (o : object) : list (string * string) :=
  map snd (fold_right insertByIndex [] (indexEntries o))
  ++ filter (fun kv => negb (isArrayIndex (fst kv))) o.

Definition Object_keys (o : object) : list string := map fst (Object_entries o).
Definition Object_values (o : object) : list string := map snd (Object_entries o).

(* ================================================================== *)
(** ** The CSV normalizer *)

(** What a property read on [headerMap] can give: one of its own strings, or
    a member of [Object.prototype], which every object literal inherits. *)
Inductive jsval : Type :=
| VString (s : string)
| VFunction (name : string)
| VObjectPrototype.

(** The own properties of the object literal [headerMap]. *)
Definition headerMap : list (string * string) :=
  [ ("name", "name"); ("age", "age"); ("gender", "gender");
    ("dateofbirth", "dateofbirth"); ("contact", "contact");
    ("systolicbp", "systolic"); ("diastolicbp", "diastolic");
    ("spo2", "spo2"); ("heartrate", "heartrate");
    ("temperature", "temperature"); ("results", "results");
    ("doctor", "doctor") ].

(** The properties of [Object.prototype]: [constructor] is the function
    [Object], [__proto__] an accessor that gives the prototype itself, the
    others are methods. *)
Definition ObjectPrototype : list (string * jsval) :=
  [ ("constructor", VFunction "Object");
    ("__defineGetter__", VFunction "__defineGetter__");
    ("__defineSetter__", VFunction "__defineSetter__");
    ("hasOwnProperty", VFunction "hasOwnProperty");
    ("__lookupGetter__", VFunction "__lookupGetter__");
    ("__lookupSetter__", VFunction "__lookupSetter__");
    ("isPrototypeOf", VFunction "isPrototypeOf");
    ("propertyIsEnumerable", VFunction "propertyIsEnumerable");
    ("toString", VFunction "toString");
    ("valueOf", VFunction "valueOf");
    ("__proto__", VObjectPrototype);
    ("toLocaleString", VFunction "toLocaleString") ].

Fixpoint assoc {A : Type} (k : string) (l : list (string * A)) : option A :=
  match l with
  | [] => None
  | (k', v) :: l' => if String.eqb k' k then Some v else assoc k l'
  end.

(** [headerMap[h]]: the own property, else the inherited one, else
    [undefined]. *)
Definition headerMap_get (h : string) : option jsval :=
  match assoc h headerMap with
  | Some s => Some (VString s)
  | None => assoc h ObjectPrototype
  end.

Definition truthy (v : jsval) : bool :=
  match v with
  | VString s => negb (String.eqb s EmptyString)
  | _ => true
  end.

(** [headerMap[h] || h] *)
Definition normalizeHeader (h : string) : jsval :=
  match headerMap_get h with
  | Some v => if truthy v then v else VString h
  | None => VString h
  end.

(** The string a value becomes when it is used as a property key.  The text
    of a built-in function is implementation-defined within the NativeFunction
    grammar; V8's is taken here. *)
Definition toPropertyKey (v : jsval) : string :=
  match v with
  | VString s => s
  | VFunction name => "function " ++ name ++ "() { [native code] }"
  | VObjectPrototype => "[object Object]"
  end.

(** [x.trim().toLowerCase().replace(/\s+/g, '').replace(/[^a-z0-9]/g, '')] *)
Definition canon (x : string) : string :=
  removeChars (fun c => negb (isLowerAlnum c))
    (removeChars isWhiteSpace (toLowerCase (trim x))).

(** [cells.map(canon).join('')] *)
Definition fingerprint (cells : list string) : string :=
  join "" (map canon cells).

Definition isBlank (s : string) : bool := String.eqb (trim s) EmptyString.

(** [csvText.split('\n').filter(line => line.trim() !== '')] *)
Definition csvLines (csvText : string) : list string :=
  filter (fun line => negb (isBlank line)) (split LF csvText).

(** [values[index] ? values[index].trim() : ''] *)
Definition cellValue (values : list string) (index : nat) : string :=
  match nth_error values index with
  | Some v => if String.eqb v EmptyString then EmptyString else trim v
  | None => EmptyString
  end.

(** The body of [normalizedHeaders.forEach((header, index) => ...)], threading
    [obj] and [isRowEmpty]. *)
Fixpoint forEachHeader (hs : list jsval) (index : nat) (values : list string)
    (st : object * bool) : object * bool :=
  match hs with
  | [] => st
  | header :: hs' =>
      let value := cellValue values index in
      let obj := obj_set (toPropertyKey header) value (fst st) in
      let isRowEmpty := if String.eqb value EmptyString then snd st else false in
      forEachHeader hs' (S index) values (obj, isRowEmpty)
  end.

(** [values.length < normalizedHeaders.length * 0.7] on doubles, as the
    source computes it: [0x1.6666666666666p-1] is the double that the literal
    [0.7] denotes. *)
Definition toDouble (n : nat) : float :=
  PrimFloat.of_uint63 (Uint63.of_Z (Z.of_nat n)).

Definition doubleTooShort (nvalues nheaders : nat) : bool :=
  PrimFloat.ltb (toDouble nvalues)
                (PrimFloat.mul (toDouble nheaders) 0x1.6666666666666p-1%float).

(** The same test on integers.  For every length [n] an array can have, the
    double product differs from [7n/10] by far less than [1/10], and is at
    most [7n/10] when that is an integer; [values.length] is an integer and
    [7n/10] a multiple of [1/10], so the double comparison holds exactly when
    [10 * values.length < 7 * n] ([double_test_agrees] runs both tests on
    every pair of lengths up to 150).  The parser below uses this form. *)
Definition tooShort (nvalues nheaders : nat) : bool :=
  (10 * nvalues <? 7 * nheaders)%nat.

(** One turn of the [for] loop: [None] when the row is skipped ([continue],
    or [isRowEmpty] at the end), [Some obj] when [obj] is pushed. *)
Definition processRow (normalizedHeaders : list jsval)
    (headerFingerprint : string) (line : string) : option object :=
  let values := split comma line in
  if tooShort (List.length values) (List.length normalizedHeaders)
     || forallb isBlank values
  then None
  else
    let currentRowFingerprint := fingerprint values in
    if String.eqb currentRowFingerprint headerFingerprint then None
    else
      let '(obj, isRowEmpty) :=
        forEachHeader normalizedHeaders 0 values ([], true) in
      if negb isRowEmpty then Some obj else None.

(** The [for] loop over [lines[1..]], [data] being the accumulator. *)
Fixpoint rowsLoop (normalizedHeaders : list jsval) (headerFingerprint : string)
    (rest : list string) (data : list object) : list object :=
  match rest with
  | [] => data
  | line :: rest' =>
      match processRow normalizedHeaders headerFingerprint line with
      | Some obj =>
          rowsLoop normalizedHeaders headerFingerprint rest' (data ++ [obj])
      | None => rowsLoop normalizedHeaders headerFingerprint rest' data
      end
  end.

Definition normalizedHeadersOf (headerLine : string) : list jsval :=
  let rawHeaders := split comma headerLine in
  let headers := map canon rawHeaders in
  map normalizeHeader headers.

Definition parseCSV (csvText : string) : list object :=
  let lines := csvLines csvText in
  if (List.length lines <=? 1)%nat then []
  else
    match lines with
    | [] => []
    | line0 :: rest =>
        let rawHeaders := split comma line0 in
        let normalizedHeaders := normalizedHeadersOf line0 in
        let headerFingerprint := fingerprint rawHeaders in
        rowsLoop normalizedHeaders headerFingerprint rest []
    end.

(* ================================================================== *)
(** ** Fetching and loading *)

Definition DOCTORS_DB_URL : string :=
  "https://docs.google.com/spreadsheets/d/e/2PACX-1vR-JME6LR_R-EW2xbHGu22JBdEXN5_wiayzwaZqaihS6IyHCjeEqoZKF3YItNoOmSRymeyECjnoQXN1/pub?output=csv".

Definition PATIENT_DB_URL : string :=
  "https://docs.google.com/spreadsheets/d/e/2PACX-1vTyFSHcy1tmkb1sk7VJJbakrbMTQRYv8KopB5rg1_JVXMwV3Jxg9W63EOEMZ-juwrPd7s1FKZD1eOQK/pub?output=csv".

(** A [Response]: [text = None] when [response.text()] rejects. *)
Record response : Type :=
  { ok : bool; status : N; text : option string }.

(** What the network does with one request: [fetch] rejects, or resolves
    with a response. *)
Inductive fetch_outcome : Type :=
| Rejected
| Resolved (r : response).

(** What a run does that an observer can see: the requests it sends, the
    calls of [parseCSV] with their argument, the lines on [console.error]
    and the loading placeholders. *)
Inductive event : Type :=
| EvFetch (url : string)
| EvParseCSV (csvText : string)
| EvConsoleError
| EvShowLoading.

(** Code that logs events and either returns or throws ([None]). *)
Definition action (A : Type) : Type := list event * option A.

Definition ret {A : Type} (a : A) : action A := ([], Some a).
Definition throw {A : Type} : action A := ([], None).
Definition emit (e : event) : action unit := ([e], Some tt).

Definition bind {A B : Type} (m : action A) (k : A -> action B) : action B :=
  match m with
  | (tr, Some a) => let '(tr', r) := k a in ((tr ++ tr')%list, r)
  | (tr, None) => (tr, None)
  end.

(** [try { m } catch (error) { handler }] *)
Definition try_catch {A : Type} (m : action A) (handler : action A) : action A :=
  match m with
  | (tr, Some a) => (tr, Some a)
  | (tr, None) => let '(tr', r) := handler in ((tr ++ tr')%list, r)
  end.

Notation "x <- m ;; k" := (bind m (fun x => k))
  (at level 61, m at next level, right associativity).

Definition trace {A : Type} (m : action A) : list event := fst m.
Definition outcome {A : Type} (m : action A) : option A := snd m.

(** [`${url}&timestamp=${new Date().getTime()}`] *)
Definition cacheBusterUrl (url : string) (now : N) : string :=
  url ++ "&timestamp=" ++ N_to_string now.

Definition fetch (net : string -> fetch_outcome) (url : string) : action response :=
  _ <- emit (EvFetch url) ;;
  match net url with
  | Rejected => throw
  | Resolved r => ret r
  end.

Definition response_text (r : response) : action string :=
  match text r with
  | Some csvText => ret csvText
  | None => throw
  end.

(** [net] is the network, [now] the clock when the call starts. *)
Definition fetchData (net : string -> fetch_outcome) (now : N) (url : string)
  : action (list object) :=
  try_catch
    (response <- fetch net (cacheBusterUrl url now) ;;
     _ <- (if negb (ok response) then throw else ret tt) ;;
     csvText <- response_text response ;;
     _ <- emit (EvParseCSV csvText) ;;
     ret (parseCSV csvText))
    (_ <- emit EvConsoleError ;;
     ret []).

(** The two module-level arrays. *)
Record app_state : Type :=
  { doctorsData : list object; databaseData : list object }.

(** The two requests are in flight together; their events are listed one
    request after the other.  The redraw that follows the two assignments
    writes the page only and is left out. *)
Definition fetchAndLoadData (net : string -> fetch_outcome) (now1 now2 : N)
    (st : app_state) : action app_state :=
  _ <- (if ((List.length (doctorsData st) =? 0) &&
            (List.length (databaseData st) =? 0))%nat
        then emit EvShowLoading else ret tt) ;;
  doctorsResult <- fetchData net now1 DOCTORS_DB_URL ;;
  databaseResult <- fetchData net now2 PATIENT_DB_URL ;;
  ret {| doctorsData := doctorsResult; databaseData := databaseResult |}.

(* ================================================================== *)
(** ** Search *)

(** The values of a record are strings, on which [String(value)] is the
    identity. *)
Definition filterData (query : string) (data : list object) : list object :=
  let lowerCaseQuery := toLowerCase query in
  filter (fun item =>
            existsb (fun value => includes (toLowerCase value) lowerCaseQuery)
                    (Object_values item))
         data.

(* ================================================================== *)
(** ** The page: screens, polling, tables and search boxes

    The page itself is not among the sources.  The elements the script looks
    up by id are taken to exist, and the three elements of [screens] to be the
    elements of class [screen], so that [document.querySelector('.screen.active')]
    finds the screen [switchScreen] made active last. *)

(** The keys of [screens]: [home], [doctors] and [database]. *)
Inductive screen : Type := HomeScreen | DoctorsScreen | DatabaseScreen.

(** The ids the script finds the three screens by. *)
Definition screenElementId (s : screen) : string :=
  match s with
  | HomeScreen => "home-screen"
  | DoctorsScreen => "doctors-profile-screen"
  | DatabaseScreen => "database-access-screen"
  end.

Fixpoint dropChars (n : nat) (s : string) : string :=
  match n, s with
  | O, _ => s
  | S n', String _ s' => dropChars n' s'
  | S _, EmptyString => EmptyString
  end.

(** [s.replace(pattern, replacement)] for a string pattern and a replacement
    without [$]: the first occurrence is replaced. *)
Fixpoint replaceFirst (pattern replacement s : string) : string :=
  if String.prefix pattern s
  then replacement ++ dropChars (String.length pattern) s
  else match s with
       | EmptyString => EmptyString
       | String c s' => String c (replaceFirst pattern replacement s')
       end.

(** A table body: the markup last assigned to [innerHTML], and the markup of
    the rows inserted with [insertRow] since. *)
Record tbody : Type :=
  { assignedHTML : string; insertedRows : list string }.

Definition dq : string := String (ascii_of_nat 34) EmptyString.

(** [<tr><td colspan="n" style="text-align:center;">message</td></tr>] *)
Definition placeholderRow (colspan message : string) : string :=
  "<tr><td colspan=" ++ dq ++ colspan ++ dq ++ " style=" ++ dq ++
  "text-align:center;" ++ dq ++ ">" ++ message ++ "</td></tr>".

(** The template literal of a row: a line break, every cell on a line of its
    own after twelve spaces, and eight spaces at the end. *)
Definition rowMarkup (tds : list string) : string :=
  String LF EmptyString
  ++ String.concat EmptyString
       (map (fun td => "            <td>" ++ td ++ "</td>" ++ String LF EmptyString)
            tds)
  ++ "        ".

(** [item.k]: the own property, else the one inherited from
    [Object.prototype], else [undefined]. *)
Definition readProperty (k : string) (item : object) : option jsval :=
  match obj_get k item with
  | Some v => Some (VString v)
  | None => assoc k ObjectPrototype
  end.

(** [${x || ''}]: the string of a truthy value, else the empty string. *)
Definition orEmpty (x : option jsval) : string :=
  match x with
  | Some v => if truthy v then toPropertyKey v else EmptyString
  | None => EmptyString
  end.

Definition doctorColumns : list string :=
  ["name"; "contact"; "schedule"; "availability"].

Definition patientColumns : list string :=
  ["name"; "age"; "gender"; "dateofbirth"; "contact"; "systolic"; "diastolic";
   "spo2"; "heartrate"; "temperature"; "results"; "doctor"].

Definition tableRow (columns : list string) (item : object) : string :=
  rowMarkup (map (fun k => orEmpty (readProperty k item)) columns).

(** What [renderDoctorsTable(data)] leaves in the table body. *)
Definition doctorsTableOf (data : list object) : tbody :=
  if (List.length data =? 0)%nat
  then {| assignedHTML := placeholderRow "4" "No doctor data found.";
          insertedRows := [] |}
  else {| assignedHTML := EmptyString;
          insertedRows := map (tableRow doctorColumns) data |}.

(** What [renderDatabaseTable(data)] leaves in the table body. *)
Definition databaseTableOf (data : list object) : tbody :=
  if (List.length data =? 0)%nat
  then {| assignedHTML := placeholderRow "13" "No patient records found.";
          insertedRows := [] |}
  else {| assignedHTML := EmptyString;
          insertedRows := map (tableRow patientColumns) data |}.

(** The timer state: [dataIntervalId] ([None] is [null]), the repeating
    timers that are set, and the last id [setInterval] gave out (ids are
    positive and fresh). *)
Record poller : Type :=
  { dataIntervalId : option N; intervals : list N; lastTimerId : N }.

(** What the script reads and writes of the document. *)
Record view : Type :=
  { activeScreen : option screen;
    doctorSearchInput : string;
    databaseSearchInput : string;
    doctorTableBody : tbody;
    databaseTableBody : tbody }.

Record page : Type :=
  { datasets : app_state; timers : poller; document : view;
    consoleLog : list string }.

Definition setDatasets (d : app_state) (p : page) : page :=
  {| datasets := d; timers := timers p; document := document p;
     consoleLog := consoleLog p |}.

Definition setTimers (t : poller) (p : page) : page :=
  {| datasets := datasets p; timers := t; document := document p;
     consoleLog := consoleLog p |}.

Definition setDocument (v : view) (p : page) : page :=
  {| datasets := datasets p; timers := timers p; document := v;
     consoleLog := consoleLog p |}.

Definition console_log (line : string) (p : page) : page :=
  {| datasets := datasets p; timers := timers p; document := document p;
     consoleLog := (consoleLog p ++ [line])%list |}.

Definition setActiveScreen (s : option screen) (v : view) : view :=
  {| activeScreen := s;
     doctorSearchInput := doctorSearchInput v;
     databaseSearchInput := databaseSearchInput v;
     doctorTableBody := doctorTableBody v;
     databaseTableBody := databaseTableBody v |}.

Definition setDoctorSearchInput (value : string) (v : view) : view :=
  {| activeScreen := activeScreen v;
     doctorSearchInput := value;
     databaseSearchInput := databaseSearchInput v;
     doctorTableBody := doctorTableBody v;
     databaseTableBody := databaseTableBody v |}.

Definition setDatabaseSearchInput (value : string) (v : view) : view :=
  {| activeScreen := activeScreen v;
     doctorSearchInput := doctorSearchInput v;
     databaseSearchInput := value;
     doctorTableBody := doctorTableBody v;
     databaseTableBody := databaseTableBody v |}.

Definition setDoctorTableBody (t : tbody) (v : view) : view :=
  {| activeScreen := activeScreen v;
     doctorSearchInput := doctorSearchInput v;
     databaseSearchInput := databaseSearchInput v;
     doctorTableBody := t;
     databaseTableBody := databaseTableBody v |}.

Definition setDatabaseTableBody (t : tbody) (v : view) : view :=
  {| activeScreen := activeScreen v;
     doctorSearchInput := doctorSearchInput v;
     databaseSearchInput := databaseSearchInput v;
     doctorTableBody := doctorTableBody v;
     databaseTableBody := t |}.

Definition POLLING_INTERVAL : N := 15000.

(** [if (dataIntervalId)]: an id that is neither [null] nor 0. *)
Definition timerIdSet (id : option N) : option N :=
  match id with
  | Some n => if (n =? 0)%N then None else Some n
  | None => None
  end.

Definition clearInterval (id : N) (t : poller) : poller :=
  {| dataIntervalId := dataIntervalId t;
     intervals := filter (fun i => negb (i =? id)%N) (intervals t);
     lastTimerId := lastTimerId t |}.

Definition startPolling (p : page) : page :=
  let t1 := match timerIdSet (dataIntervalId (timers p)) with
            | Some id => clearInterval id (timers p)
            | None => timers p
            end in
  let id := (lastTimerId t1 + 1)%N in
  let t2 := {| dataIntervalId := Some id;
               intervals := (intervals t1 ++ [id])%list;
               lastTimerId := id |} in
  console_log ("Polling started: fetching data every "
               ++ N_to_string (POLLING_INTERVAL / 1000) ++ " seconds.")
              (setTimers t2 p).

Definition stopPolling (p : page) : page :=
  match timerIdSet (dataIntervalId (timers p)) with
  | Some id =>
      let t1 := clearInterval id (timers p) in
      let t2 := {| dataIntervalId := None;
                   intervals := intervals t1;
                   lastTimerId := lastTimerId t1 |} in
      console_log "Polling stopped." (setTimers t2 p)
  | None => p
  end.

Definition renderDoctorsTable (data : list object) (p : page) : page :=
  setDocument (setDoctorTableBody (doctorsTableOf data) (document p)) p.

Definition renderDatabaseTable (data : list object) (p : page) : page :=
  setDocument (setDatabaseTableBody (databaseTableOf data) (document p)) p.

Definition switchScreen (targetScreen : screen) (p : page) : page :=
  let p1 := setDocument (setActiveScreen (Some targetScreen) (document p)) p in
  let p2 := match targetScreen with
            | HomeScreen => stopPolling p1
            | _ => startPolling p1
            end in
  match targetScreen with
  | DoctorsScreen =>
      let p3 := setDocument (setDoctorSearchInput EmptyString (document p2)) p2 in
      renderDoctorsTable (doctorsData (datasets p3)) p3
  | DatabaseScreen =>
      let p3 := setDocument (setDatabaseSearchInput EmptyString (document p2)) p2 in
      renderDatabaseTable (databaseData (datasets p3)) p3
  | HomeScreen => p2
  end.

Definition handleDoctorSearch (p : page) : page :=
  let query := trim (doctorSearchInput (document p)) in
  renderDoctorsTable (filterData query (doctorsData (datasets p))) p.

Definition handleDatabaseSearch (p : page) : page :=
  let query := trim (databaseSearchInput (document p)) in
  renderDatabaseTable (filterData query (databaseData (datasets p))) p.

(** [fetchAndLoadData] up to its [await]: the loading placeholders. *)
Definition loadBegin (p : page) : page :=
  if ((List.length (doctorsData (datasets p)) =? 0) &&
      (List.length (databaseData (datasets p)) =? 0))%nat
  then
    let v1 := setDoctorTableBody
                {| assignedHTML := placeholderRow "4" "Loading doctor data...";
                   insertedRows := [] |} (document p) in
    let v2 := setDatabaseTableBody
                {| assignedHTML := placeholderRow "13" "Loading patient data...";
                   insertedRows := [] |} v1 in
    setDocument v2 p
  else p.

(** [fetchAndLoadData] after its [await], the two results in hand: the
    assignments and the redraw. *)
Definition loadComplete (doctorsResult databaseResult : list object) (p : page)
  : page :=
  let p1 := setDatasets {| doctorsData := doctorsResult;
                           databaseData := databaseResult |} p in
  let activeScreenName :=
    match activeScreen (document p1) with
    | Some s => replaceFirst "-screen" EmptyString (screenElementId s)
    | None => "home"
    end in
  if String.eqb activeScreenName "doctors"
  then renderDoctorsTable (doctorsData (datasets p1)) p1
  else if String.eqb activeScreenName "database"
  then renderDatabaseTable (databaseData (datasets p1)) p1
  else if String.eqb activeScreenName "home"
  then switchScreen HomeScreen p1
  else p1.

(** What happens to the page: a click on one of the four buttons, typing in
    a search box, and a run of [fetchAndLoadData] (started by the timer or by
    [window.onload]) reaching its [await] and coming back from it. *)
Inductive ui_event : Type :=
| Click (targetScreen : screen)
| DoctorSearchTyped (value : string)
| DatabaseSearchTyped (value : string)
| LoadStarts
| LoadEnds (doctorsResult databaseResult : list object).

Definition handle (e : ui_event) (p : page) : page :=
  match e with
  | Click targetScreen => switchScreen targetScreen p
  | DoctorSearchTyped value =>
      handleDoctorSearch (setDocument (setDoctorSearchInput value (document p)) p)
  | DatabaseSearchTyped value =>
      handleDatabaseSearch (setDocument (setDatabaseSearchInput value (document p)) p)
  | LoadStarts => loadBegin p
  | LoadEnds doctorsResult databaseResult => loadComplete doctorsResult databaseResult p
  end.

Definition run (events : list ui_event) (p : page) : page :=
  fold_left (fun p e => handle e p) events p.

(** A whole run of [fetchAndLoadData] on the page, nothing else happening
    between its start and its end.  Were one of the two [fetchData] calls to
    throw, the run would stop at the [await]. *)
Definition fetchAndLoadDataOn (net : string -> fetch_outcome) (now1 now2 : N)
    (p : page) : page :=
  let p1 := loadBegin p in
  match outcome (fetchData net now1 DOCTORS_DB_URL),
        outcome (fetchData net now2 PATIENT_DB_URL) with
  | Some doctorsResult, Some databaseResult =>
      loadComplete doctorsResult databaseResult p1
  | _, _ => p1
  end.

(** [window.onload], up to the [await] of the load it starts. *)
Definition onload (p : page) : page := loadBegin (switchScreen HomeScreen p).

(** The page when the script has just been read: no data, no timer. *)
Definition scriptStart (v : view) (lastId : N) : page :=
  {| datasets := {| doctorsData := []; databaseData := [] |};
     timers := {| dataIntervalId := None; intervals := []; lastTimerId := lastId |};
     document := v;
     consoleLog := [] |}.

(* ================================================================== *)
(** ** Vocabulary of the statements *)

(** The one-character string ['\n'], and the text whose lines are [ls]. *)
Definition nl : string := String LF EmptyString.
Definition unlines (ls : list string) : string := join nl ls.

(** A string that is one line: it holds no line feed. *)
Definition singleLine (s : string) : Prop := ~ In LF (list_ascii_of_string s).

Definition cells (line : string) : list string := split comma line.

(** The field names a header line gives, position by position. *)
Definition headerKeys (headerLine : string) : list string :=
  map toPropertyKey (normalizedHeadersOf headerLine).

(** The trimmed [i]-th cell of a row, the empty string when the row has no
    [i]-th cell. *)
Definition trimmedCell (values : list string) (i : nat) : string :=
  match nth_error values i with
  | Some v => trim v
  | None => EmptyString
  end.

(** The records one data line adds to the output under a given header line:
    none or one. *)
Definition rowRecords (headerLine line : string) : list object :=
  match processRow (normalizedHeadersOf headerLine)
                   (fingerprint (cells headerLine)) line with
  | Some obj => [obj]
  | None => []
  end.

(** The assignments [obj[k] = v] for the pairs of [kvs], first to last. *)
Definition setAll (kvs : list (string * string)) (o : object) : object :=
  fold_left (fun o kv => obj_set (fst kv) (snd kv) o) kvs o.

(** Header position by header position, the field name and the trimmed cell
    of that position. *)
Definition positionEntries (keys values : list string) : list (string * string) :=
  combine keys (map (trimmedCell values) (seq 0 (List.length keys))).

(** The twelve keys of the rename table. *)
Definition renameKeys : list string := map fst headerMap.

Fixpoint allLowerAlnum (s : string) : bool :=
  match s with
  | EmptyString => true
  | String c s' => isLowerAlnum c && allLowerAlnum s'
  end.

(** [q] occurs in [s]. *)
Definition isSubstring (q s : string) : Prop :=
  exists pre post : string, s = pre ++ q ++ post.

(** At least one field value of [item], lower-cased, contains the lower-cased
    query. *)
Definition matchesQuery (query : string) (item : object) : Prop :=
  exists k v : string,
    In (k, v) item /\ isSubstring (toLowerCase query) (toLowerCase v).

(** [out] is [data] with exactly the elements that satisfy [P] kept, in
    order. *)
Inductive Selected {A : Type} (P : A -> Prop) : list A -> list A -> Prop :=
| Selected_nil : Selected P [] []
| Selected_keep x l out : P x -> Selected P l out -> Selected P (x :: l) (x :: out)
| Selected_drop x l out : ~ P x -> Selected P l out -> Selected P (x :: l) out.

(** The two datasets, with the URL, the clock reading and the module-level
    array of each. *)
Inductive dataset : Type := Doctors | Patients.

Definition urlOf (d : dataset) : string :=
  match d with Doctors => DOCTORS_DB_URL | Patients => PATIENT_DB_URL end.

Definition loaded (d : dataset) (st : app_state) : list object :=
  match d with Doctors => doctorsData st | Patients => databaseData st end.

Definition clockOf (d : dataset) (now1 now2 : N) : N :=
  match d with Doctors => now1 | Patients => now2 end.

(** A fetch fails: a network error, or a response whose status is not OK. *)
Definition fetchFails (o : fetch_outcome) : Prop :=
  match o with
  | Rejected => True
  | Resolved r => ok r = false
  end.

(** The inputs of the scenarios: ["Name,Age\nAlice,30\nBob,40"],
    ["Name,Age\nName,Age\nAlice,30"], ["Name,Age,Gender\nAlice,30"] and
    ["Name,Age\n,\n"]. *)
Definition scenario1 : string := unlines ["Name,Age"; "Alice,30"; "Bob,40"].
Definition scenario2 : string := unlines ["Name,Age"; "Name,Age"; "Alice,30"].
Definition scenario3 : string := unlines ["Name,Age,Gender"; "Alice,30"].
Definition scenario4 : string := unlines ["Name,Age"; ","; ""].

(** A network that is down, and a state that holds one doctor. *)
Definition offline : string -> fetch_outcome := fun _ => Rejected.

Definition oneDoctorLoaded : app_state :=
  {| doctorsData := [[("name", "Dr. Osei"); ("contact", "555-0101")]];
     databaseData := [] |}.

(** A sheet with a repeated column name and a numeric one, and a sheet with
    a column named Constructor. *)
Definition repeatedNameInput : string := unlines ["Name,2024,name"; "Alice,ok,Bob"].
Definition constructorInput : string := unlines ["Constructor,Name"; "x,Alice"].

(** The carriage return, and the line end of a text with CRLF line ends. *)
Definition CR : ascii := ascii_of_nat 13.
Definition crlf : string := String CR nl.

(** The list [l] with the character [c] added at the end of its last
    string. *)
Fixpoint appendLast (c : ascii) (l : list string) : list string :=
  match l with
  | [] => []
  | [w] => [w ++ String c EmptyString]
  | w :: ws => w :: appendLast c ws
  end.

(** A string that does not start with white space. *)
Definition startsClean (s : string) : Prop :=
  match s with
  | EmptyString => True
  | String c _ => isWhiteSpace c = false
  end.

(** Two lines that the parser cannot tell apart: both blank or both not, and
    the same cells up to the white space around each. *)
Definition sameCells (l l' : string) : Prop :=
  isBlank l = isBlank l' /\ map trim (cells l) = map trim (cells l').

(** The records of a text whose non-blank lines are [lines]. *)
Definition parseLines (lines : list string) : list object :=
  match lines with
  | [] => []
  | header :: rest => flat_map (rowRecords header) rest
  end.

(** Polling goes with the screen: no timer on the home screen, exactly one,
    the one [dataIntervalId] names, on a data screen. *)
Definition pollingMatchesScreen (p : page) : Prop :=
  match activeScreen (document p) with
  | Some HomeScreen =>
      dataIntervalId (timers p) = None /\ intervals (timers p) = []
  | Some _ =>
      exists id, id <> 0%N /\ dataIntervalId (timers p) = Some id /\
                 intervals (timers p) = [id]
  | None => False
  end.

(** At most one timer, and [dataIntervalId] names it. *)
Definition oneTimerAtMost (t : poller) : Prop :=
  (dataIntervalId t = None /\ intervals t = []) \/
  (exists id, id <> 0%N /\ dataIntervalId t = Some id /\ intervals t = [id]).

(** A document with the home screen shown and nothing drawn yet, and the
    two loading placeholders. *)
Definition emptyTable : tbody := {| assignedHTML := EmptyString; insertedRows := [] |}.

Definition freshView : view :=
  {| activeScreen := Some HomeScreen;
     doctorSearchInput := EmptyString;
     databaseSearchInput := EmptyString;
     doctorTableBody := emptyTable;
     databaseTableBody := emptyTable |}.

Definition doctorsLoading : tbody :=
  {| assignedHTML := placeholderRow "4" "Loading doctor data..."; insertedRows := [] |}.

Definition patientsLoading : tbody :=
  {| assignedHTML := placeholderRow "13" "Loading patient data..."; insertedRows := [] |}.

(* ================================================================== *)
(** * Properties *)

(** ** Splitting and joining *)

Lemma split_not_nil sep s : split sep s <> [].
Proof.
  destruct s as [|c s]; simpl; [discriminate|].
  destruct (Ascii.eqb c sep); [discriminate|].
  destruct (split sep s); discriminate.
Qed.

Lemma split_app_sep sep a b :
  split sep (a ++ String sep b) = (split sep a ++ split sep b)%list.
Proof.
  induction a as [|c a IH]; simpl.
  - now rewrite Ascii.eqb_refl.
  - destruct (Ascii.eqb c sep); rewrite IH; [reflexivity|].
    destruct (split sep a) as [|w ws] eqn:E; [|reflexivity].
    now apply split_not_nil in E.
Qed.

Lemma split_single sep s :
  ~ In sep (list_ascii_of_string s) -> split sep s = [s].
Proof.
  induction s as [|c s IH]; simpl; intros H; [reflexivity|].
  destruct (Ascii.eqb_spec c sep) as [->|_].
  - exfalso; apply H; now left.
  - rewrite IH; [reflexivity|]. intros Hin; apply H; now right.
Qed.

Lemma csvLines_unlines ls :
  csvLines (unlines ls) =
  filter (fun line => negb (isBlank line)) (flat_map (split LF) ls).
Proof.
  unfold csvLines, unlines, join.
  induction ls as [|x [|y ys] IH].
  - reflexivity.
  - simpl. now rewrite app_nil_r.
  - change (String.concat nl (x :: y :: ys))
      with (x ++ String LF (String.concat nl (y :: ys))).
    rewrite split_app_sep, filter_app, IH.
    change (flat_map (split LF) (x :: y :: ys))
      with (split LF x ++ flat_map (split LF) (y :: ys))%list.
    now rewrite filter_app.
Qed.

(** Every text is the text of its lines. *)
Lemma unlines_split s : unlines (split LF s) = s.
Proof.
  unfold unlines, join. induction s as [|c s IH]; [reflexivity|].
  simpl split. destruct (split LF s) as [|w ws] eqn:E;
    [now apply split_not_nil in E|].
  destruct (Ascii.eqb_spec c LF) as [->|_].
  - change (String.concat nl (EmptyString :: w :: ws))
      with (String LF (String.concat nl (w :: ws))).
    now rewrite IH.
  - rewrite <- IH. destruct ws; reflexivity.
Qed.

(** ** The shape of the parser's result *)

Lemma rowsLoop_flat_map header rest data :
  rowsLoop (normalizedHeadersOf header) (fingerprint (cells header)) rest data =
  (data ++ flat_map (rowRecords header) rest)%list.
Proof.
  revert data; induction rest as [|line rest IH]; intros data; simpl.
  - now rewrite app_nil_r.
  - unfold rowRecords at 1.
    destruct (processRow _ _ line) as [obj|]; rewrite IH; simpl;
      [now rewrite <- app_assoc | reflexivity].
Qed.

Lemma parseCSV_rows csvText :
  parseCSV csvText =
  match csvLines csvText with
  | [] => []
  | header :: rest => flat_map (rowRecords header) rest
  end.
Proof.
  unfold parseCSV.
  destruct (csvLines csvText) as [|header [|l rest]]; try reflexivity.
  cbv zeta. change (List.length (header :: l :: rest) <=? 1)%nat with false.
  cbv iota. apply (rowsLoop_flat_map header (l :: rest) []).
Qed.

Lemma rowRecords_length header line : (List.length (rowRecords header line) <= 1)%nat.
Proof. unfold rowRecords; destruct (processRow _ _ _); simpl; lia. Qed.

Lemma flat_map_rowRecords_length header rest :
  (List.length (flat_map (rowRecords header) rest) <= List.length rest)%nat.
Proof.
  induction rest as [|l rest IH]; simpl; [lia|].
  rewrite length_app. pose proof (rowRecords_length header l). lia.
Qed.

(** ** Lines that add no record *)

Lemma blank_line_filtered row :
  isBlank row = true -> filter (fun line => negb (isBlank line)) [row] = [].
Proof. intros H; simpl; now rewrite H. Qed.

(** Taking out of the text a data line that gives no record leaves the
    result as it was. *)
Lemma skipped_line_removable above below header row :
  singleLine row ->
  hd_error (csvLines (unlines above)) = Some header ->
  rowRecords header row = [] ->
  parseCSV (unlines (above ++ row :: below)) =
  parseCSV (unlines (above ++ below)).
Proof.
  intros Hrow Hhd Hskip.
  rewrite !parseCSV_rows, !csvLines_unlines.
  rewrite csvLines_unlines in Hhd.
  rewrite !flat_map_app, !filter_app.
  change (flat_map (split LF) (row :: below))
    with (split LF row ++ flat_map (split LF) below)%list.
  rewrite filter_app, (split_single LF row Hrow).
  destruct (filter _ (flat_map (split LF) above)) as [|h rest]; [discriminate|].
  injection Hhd as ->.
  simpl app. cbv iota. rewrite !flat_map_app. f_equal.
  destruct (negb (isBlank row)); simpl; [|reflexivity].
  now rewrite Hskip.
Qed.

Lemma forallb_isBlank values :
  Forall (fun c => trim c = EmptyString) values -> forallb isBlank values = true.
Proof.
  intros H; apply forallb_forall; intros c Hc.
  rewrite Forall_forall in H. unfold isBlank. now rewrite (H c Hc).
Qed.

Lemma length_normalizedHeadersOf header :
  List.length (normalizedHeadersOf header) = List.length (cells header).
Proof. unfold normalizedHeadersOf, cells. now rewrite !length_map. Qed.

Lemma short_or_blank_row_skipped header row :
  (10 * List.length (cells row) < 7 * List.length (cells header))%nat \/
  Forall (fun c => trim c = EmptyString) (cells row) ->
  rowRecords header row = [].
Proof.
  intros H. unfold rowRecords, processRow. fold (cells row).
  rewrite length_normalizedHeadersOf.
  assert (E : tooShort (List.length (cells row)) (List.length (cells header))
              || forallb isBlank (cells row) = true).
  { apply orb_true_iff. destruct H as [H|H].
    - left. now apply Nat.ltb_lt.
    - right. now apply forallb_isBlank. }
  now rewrite E.
Qed.

Lemma header_fingerprint_row_skipped header row :
  fingerprint (cells row) = fingerprint (cells header) ->
  rowRecords header row = [].
Proof.
  intros H. unfold rowRecords, processRow. fold (cells row).
  destruct (tooShort _ _ || forallb isBlank (cells row)); [reflexivity|].
  now rewrite H, String.eqb_refl.
Qed.

(** ** Claims on skipped lines and on the size of the result *)

(** C3.  A data line whose cells, canonicalized and concatenated, give the
    header's fingerprint adds no record: the text with the line and the text
    without it parse to the same records.  Parsing
    ["Name,Age\nName,Age\nAlice,30"] gives exactly one record, Alice's. *)
Theorem duplicate_header_row_excluded :
  (forall (above below : list string) (header row : string),
      singleLine row ->
      hd_error (csvLines (unlines above)) = Some header ->
      fingerprint (cells row) = fingerprint (cells header) ->
      parseCSV (unlines (above ++ row :: below)) =
      parseCSV (unlines (above ++ below))) /\
  parseCSV scenario2 = [[("name", "Alice"); ("age", "30")]].
Proof.
  split.
  - intros above below header row Hrow Hhd Hfp.
    apply (skipped_line_removable above below header row Hrow Hhd).
    now apply header_fingerprint_row_skipped.
  - vm_compute. reflexivity.
Qed.

Lemma duplicate_header_row_excluded_witness :
  parseCSV (unlines (["Patient Name,AGE"] ++ "patient-name , Age" :: ["Alice,30"])) =
  parseCSV (unlines (["Patient Name,AGE"] ++ ["Alice,30"])).
Proof.
  apply (proj1 duplicate_header_row_excluded
           ["Patient Name,AGE"] ["Alice,30"] "Patient Name,AGE" "patient-name , Age").
  - unfold singleLine; simpl; intuition discriminate.
  - vm_compute; reflexivity.
  - vm_compute; reflexivity.
Defined.

(** C4.  A data line adds no record when it has fewer cells than 70% of the
    header's, or when all its cells are blank after trimming: the text with
    the line and the text without it parse to the same records.  The inputs
    ["Name,Age,Gender\nAlice,30"] and ["Name,Age\n,\n"] give no record. *)
Theorem short_or_blank_row_excluded :
  (forall (above below : list string) (header row : string),
      singleLine row ->
      hd_error (csvLines (unlines above)) = Some header ->
      (10 * List.length (cells row) < 7 * List.length (cells header))%nat \/
      Forall (fun c => trim c = EmptyString) (cells row) ->
      parseCSV (unlines (above ++ row :: below)) =
      parseCSV (unlines (above ++ below))) /\
  parseCSV scenario3 = [] /\
  parseCSV scenario4 = [].
Proof.
  split; [|split].
  - intros above below header row Hrow Hhd Hskip.
    apply (skipped_line_removable above below header row Hrow Hhd).
    now apply short_or_blank_row_skipped.
  - vm_compute. reflexivity.
  - vm_compute. reflexivity.
Qed.

Lemma short_or_blank_row_excluded_witness :
  parseCSV (unlines (["Name,Age,Gender"] ++ "Alice,30" :: ["Bob,40,M"; " , ,"])) =
  parseCSV (unlines (["Name,Age,Gender"] ++ ["Bob,40,M"; " , ,"])).
Proof.
  apply (proj1 short_or_blank_row_excluded
           ["Name,Age,Gender"] ["Bob,40,M"; " , ,"] "Name,Age,Gender" "Alice,30").
  - unfold singleLine; simpl; intuition discriminate.
  - vm_compute; reflexivity.
  - left. vm_compute. lia.
Defined.

(** C5.  An input with fewer than two lines that are non-empty after trimming
    (the empty string is one) parses to the empty sequence. *)
Theorem fewer_than_two_lines_empty (csvText : string) :
  (List.length (csvLines csvText) < 2)%nat -> parseCSV csvText = [].
Proof.
  intros H. rewrite parseCSV_rows.
  destruct (csvLines csvText) as [|header [|l rest]]; try reflexivity.
  simpl in H; lia.
Qed.

Lemma fewer_than_two_lines_empty_witness :
  parseCSV "" = [] /\ parseCSV ("Name,Age" ++ nl ++ "   ") = [].
Proof.
  split.
  - apply (fewer_than_two_lines_empty ""). vm_compute. lia.
  - apply (fewer_than_two_lines_empty ("Name,Age" ++ nl ++ "   ")). vm_compute. lia.
Defined.

(** C6, as stated, fails on the empty input: it has no non-blank line, the
    result has length 0, and 0 is not at most 0 - 1. *)
Lemma row_count_bound_fails_on_empty_input :
  ~ (Z.of_nat (List.length (parseCSV "")) <=
     Z.of_nat (List.length (csvLines "")) - 1)%Z.
Proof. vm_compute. intros H; now apply H. Qed.

(** C6, amended.  The result has at most as many records as the input has
    non-blank lines, minus 1, where the input has a non-blank line; it is
    empty where the input has none. *)
Theorem row_count_bound (csvText : string) :
  (Z.of_nat (List.length (parseCSV csvText)) <=
   Z.max 0 (Z.of_nat (List.length (csvLines csvText)) - 1))%Z.
Proof.
  rewrite parseCSV_rows.
  destruct (csvLines csvText) as [|header rest]; [simpl; lia|].
  pose proof (flat_map_rowRecords_length header rest).
  simpl List.length. lia.
Qed.

(** ** The fetch path *)

Lemma fetchData_on_failure net now url :
  fetchFails (net (cacheBusterUrl url now)) ->
  fetchData net now url = ([EvFetch (cacheBusterUrl url now); EvConsoleError], Some []).
Proof.
  unfold fetchData, fetch, fetchFails, bind, emit.
  destruct (net (cacheBusterUrl url now)) as [|[ok status text]]; simpl.
  - reflexivity.
  - intros ->. reflexivity.
Qed.

(** [fetchData] catches whatever is thrown: it always returns. *)
Lemma fetchData_returns net now url :
  exists data, outcome (fetchData net now url) = Some data.
Proof.
  unfold fetchData, fetch, response_text, bind, emit.
  destruct (net (cacheBusterUrl url now)) as [|[[] status [csvText|]]]; simpl;
    eexists; reflexivity.
Qed.

Lemma fetchAndLoadData_outcome net now1 now2 st doctorsResult databaseResult :
  outcome (fetchData net now1 DOCTORS_DB_URL) = Some doctorsResult ->
  outcome (fetchData net now2 PATIENT_DB_URL) = Some databaseResult ->
  outcome (fetchAndLoadData net now1 now2 st) =
  Some {| doctorsData := doctorsResult; databaseData := databaseResult |}.
Proof.
  unfold fetchAndLoadData, outcome.
  destruct (fetchData net now1 DOCTORS_DB_URL) as [tr1 r1].
  destruct (fetchData net now2 PATIENT_DB_URL) as [tr2 r2].
  simpl. intros -> ->.
  destruct (_ && _)%bool; reflexivity.
Qed.

(** C1, as stated, fails: with one doctor loaded and the network down, the
    doctors' fetch fails and [fetchAndLoadData] leaves [doctorsData] empty, not
    as it was. *)
Lemma failed_fetch_overwrites_dataset :
  fetchFails (offline (cacheBusterUrl DOCTORS_DB_URL 1700000000000)) /\
  exists st',
    outcome (fetchAndLoadData offline 1700000000000 1700000000000 oneDoctorLoaded)
    = Some st' /\
    doctorsData st' = [] /\
    doctorsData st' <> doctorsData oneDoctorLoaded.
Proof.
  split; [exact I|].
  eexists; split; [reflexivity|].
  split; [reflexivity | discriminate].
Qed.

(** C1, amended.  When the fetch of a dataset fails (network error or non-OK
    status), [parseCSV] is not called on that response: [fetchData] sends the
    request, logs the error on the console and does nothing else, it returns
    the empty sequence, and [fetchAndLoadData] stores that empty sequence as
    the dataset. *)
Theorem failed_fetch_gives_empty_dataset
    (net : string -> fetch_outcome) (now1 now2 : N) (st : app_state) (d : dataset) :
  fetchFails (net (cacheBusterUrl (urlOf d) (clockOf d now1 now2))) ->
  (forall csvText,
      ~ In (EvParseCSV csvText)
           (trace (fetchData net (clockOf d now1 now2) (urlOf d)))) /\
  trace (fetchData net (clockOf d now1 now2) (urlOf d)) =
    [EvFetch (cacheBusterUrl (urlOf d) (clockOf d now1 now2)); EvConsoleError] /\
  outcome (fetchData net (clockOf d now1 now2) (urlOf d)) = Some [] /\
  exists st',
    outcome (fetchAndLoadData net now1 now2 st) = Some st' /\ loaded d st' = [].
Proof.
  intros Hfail.
  pose proof (fetchData_on_failure net _ _ Hfail) as E.
  split; [|split; [|split]].
  - intros csvText. rewrite E. simpl. intuition discriminate.
  - now rewrite E.
  - now rewrite E.
  - destruct (fetchData_returns net now1 DOCTORS_DB_URL) as [r1 E1].
    destruct (fetchData_returns net now2 PATIENT_DB_URL) as [r2 E2].
    eexists; split; [apply (fetchAndLoadData_outcome _ _ _ _ _ _ E1 E2)|].
    destruct d; simpl in *; rewrite E in *; simpl in *; congruence.
Qed.

Lemma failed_fetch_gives_empty_dataset_witness :
  (forall csvText,
      ~ In (EvParseCSV csvText) (trace (fetchData offline 5 DOCTORS_DB_URL))) /\
  trace (fetchData offline 5 DOCTORS_DB_URL) =
    [EvFetch (cacheBusterUrl DOCTORS_DB_URL 5); EvConsoleError] /\
  outcome (fetchData offline 5 DOCTORS_DB_URL) = Some [] /\
  exists st',
    outcome (fetchAndLoadData offline 5 6 oneDoctorLoaded) = Some st' /\
    loaded Doctors st' = [].
Proof.
  apply (failed_fetch_gives_empty_dataset offline 5 6 oneDoctorLoaded Doctors).
  exact I.
Defined.

(** ** Objects *)

Lemma obj_get_set_same k v o : obj_get k (obj_set k v o) = Some v.
Proof.
  induction o as [|[k' v'] o IH]; simpl.
  - now rewrite String.eqb_refl.
  - destruct (String.eqb k' k) eqn:E; simpl; now rewrite E.
Qed.

Lemma obj_get_set_other k k' v o :
  k <> k' -> obj_get k' (obj_set k v o) = obj_get k' o.
Proof.
  intros Hne. induction o as [|[k1 v1] o IH]; simpl.
  - destruct (String.eqb_spec k k'); [contradiction | reflexivity].
  - destruct (String.eqb_spec k1 k) as [->|_]; simpl.
    + destruct (String.eqb_spec k k'); [contradiction | reflexivity].
    + now rewrite IH.
Qed.

Lemma obj_set_keys k v o k' :
  In k' (map fst (obj_set k v o)) <-> k' = k \/ In k' (map fst o).
Proof.
  induction o as [|[k1 v1] o IH]; simpl.
  - intuition.
  - destruct (String.eqb_spec k1 k) as [->|_]; simpl; intuition.
Qed.

Lemma obj_set_fresh k v o :
  ~ In k (map fst o) -> obj_set k v o = (o ++ [(k, v)])%list.
Proof.
  induction o as [|[k1 v1] o IH]; simpl; intros H; [reflexivity|].
  destruct (String.eqb_spec k1 k) as [->|_]; [intuition|].
  rewrite IH; intuition.
Qed.

Lemma setAll_keys kvs o k :
  In k (map fst (setAll kvs o)) <-> In k (map fst o) \/ In k (map fst kvs).
Proof.
  unfold setAll. revert o; induction kvs as [|[k1 v1] kvs IH]; intros o; simpl.
  - intuition.
  - rewrite IH, obj_set_keys. simpl. intuition.
Qed.

Lemma obj_get_setAll_absent kvs o k :
  ~ In k (map fst kvs) -> obj_get k (setAll kvs o) = obj_get k o.
Proof.
  unfold setAll. revert o; induction kvs as [|[k1 v1] kvs IH]; intros o H; simpl.
  - reflexivity.
  - rewrite IH by (simpl in H; intuition).
    apply obj_get_set_other. simpl in H; intuition.
Qed.

(** The value a key ends with is the one of its last assignment. *)
Lemma obj_get_setAll_last kvs o i k v :
  nth_error kvs i = Some (k, v) ->
  (forall j k' v', (i < j)%nat -> nth_error kvs j = Some (k', v') -> k' <> k) ->
  obj_get k (setAll kvs o) = Some v.
Proof.
  revert o i; induction kvs as [|[k1 v1] kvs IH]; intros o i Hi Hlast.
  - destruct i; discriminate.
  - destruct i as [|i]; simpl in Hi.
    + injection Hi as -> ->.
      change (setAll ((k, v) :: kvs) o) with (setAll kvs (obj_set k v o)).
      rewrite obj_get_setAll_absent; [apply obj_get_set_same|].
      intros Hin. apply in_map_iff in Hin as [[k' v'] [E Hin]]. simpl in E; subst k'.
      apply In_nth_error in Hin as [j Hj].
      apply (Hlast (S j) k v'); [lia | exact Hj | reflexivity].
    + change (setAll ((k1, v1) :: kvs) o) with (setAll kvs (obj_set k1 v1 o)).
      apply (IH _ i Hi). intros j k' v' Hlt Hj.
      apply (Hlast (S j) k' v'); [lia | exact Hj].
Qed.

Lemma setAll_fresh kvs o :
  NoDup (map fst kvs) ->
  (forall k, In k (map fst kvs) -> ~ In k (map fst o)) ->
  setAll kvs o = (o ++ kvs)%list.
Proof.
  unfold setAll. revert o; induction kvs as [|[k v] kvs IH]; intros o Hnd Hfresh; simpl.
  - now rewrite app_nil_r.
  - simpl in Hnd. inversion Hnd as [|? ? Hk Hnd']; subst.
    rewrite obj_set_fresh by (apply Hfresh; now left).
    rewrite IH; [now rewrite <- app_assoc | exact Hnd' |].
    intros k' Hk' Hin. rewrite map_app, in_app_iff in Hin. simpl in Hin.
    destruct Hin as [Hin|[<-|[]]]; [|contradiction].
    apply (Hfresh k'); [now right | exact Hin].
Qed.

(** Enumeration is a rearrangement of the own properties. *)
Lemma In_insertByIndex x e l :
  In x (insertByIndex e l) <-> x = e \/ In x l.
Proof.
  induction l as [|e' l IH]; simpl; [intuition|].
  destruct (fst e <=? fst e')%N; simpl; [intuition|].
  rewrite IH. intuition.
Qed.

Lemma In_sorted x l :
  In x (fold_right insertByIndex [] l) <-> In x l.
Proof.
  induction l as [|e l IH]; simpl; [reflexivity|].
  rewrite In_insertByIndex, IH. intuition.
Qed.

Lemma In_Object_entries kv o : In kv (Object_entries o) <-> In kv o.
Proof.
  unfold Object_entries, indexEntries, isArrayIndex.
  rewrite in_app_iff, in_map_iff, filter_In. split.
  - intros [[[n kv'] [E H]]|[H _]]; [|exact H].
    simpl in E; subst kv'. apply In_sorted, in_flat_map in H as [kv' [Hin H]].
    destruct (arrayIndex (fst kv')); simpl in H; [|contradiction].
    destruct H as [H|[]]. now injection H as _ ->.
  - intros Hin. destruct (arrayIndex (fst kv)) as [n|] eqn:E.
    + left. exists (n, kv). split; [reflexivity|].
      apply In_sorted, in_flat_map. exists kv. split; [exact Hin|].
      rewrite E. now left.
    + right. now split.
Qed.

Lemma In_Object_keys k o : In k (Object_keys o) <-> In k (map fst o).
Proof.
  unfold Object_keys. rewrite !in_map_iff.
  split; intros [kv [E H]]; exists kv; (split; [exact E|]); now apply In_Object_entries.
Qed.

Lemma In_Object_values v o : In v (Object_values o) <-> exists k, In (k, v) o.
Proof.
  unfold Object_values. rewrite in_map_iff. split.
  - intros [[k v'] [E H]]. simpl in E; subst v'. exists k. now apply In_Object_entries.
  - intros [k H]. exists (k, v). split; [reflexivity|]. now apply In_Object_entries.
Qed.

Lemma Object_entries_no_index o :
  Forall (fun kv => isArrayIndex (fst kv) = false) o -> Object_entries o = o.
Proof.
  intros H. unfold Object_entries, indexEntries.
  assert (E1 : flat_map (fun kv : string * string =>
                 match arrayIndex (fst kv) with
                 | Some n => [(n, kv)]
                 | None => []
                 end) o = []).
  { induction H as [|kv o Hkv _ IH]; simpl; [reflexivity|].
    unfold isArrayIndex in Hkv. destruct (arrayIndex (fst kv)); [discriminate|].
    exact IH. }
  rewrite E1. simpl.
  induction H as [|kv o Hkv _ IH]; simpl; [reflexivity|].
  rewrite Hkv. simpl. f_equal. apply IH.
  clear -E1. simpl in E1. destruct (arrayIndex (fst kv)); [discriminate|exact E1].
Qed.

(** ** Records and header positions *)

Lemma cellValue_trimmedCell values i : cellValue values i = trimmedCell values i.
Proof.
  unfold cellValue, trimmedCell.
  destruct (nth_error values i) as [v|]; [|reflexivity].
  destruct (String.eqb_spec v EmptyString) as [->|_]; reflexivity.
Qed.

Lemma entries_keys (f : nat -> string) (keys : list string) start :
  map fst (combine keys (map f (seq start (List.length keys)))) = keys.
Proof.
  revert start; induction keys as [|k keys IH]; intros start; simpl;
    [reflexivity | now rewrite IH].
Qed.

Lemma entries_nth (f : nat -> string) (keys : list string) start i :
  (i < List.length keys)%nat ->
  nth_error (combine keys (map f (seq start (List.length keys)))) i =
  Some (nth i keys EmptyString, f (start + i)%nat).
Proof.
  revert start i; induction keys as [|k keys IH]; intros start i Hi; simpl in *.
  - lia.
  - destruct i as [|i]; simpl.
    + now rewrite Nat.add_0_r.
    + rewrite IH by lia. now rewrite Nat.add_succ_r.
Qed.

Lemma positionEntries_keys keys values :
  map fst (positionEntries keys values) = keys.
Proof. apply entries_keys. Qed.

Lemma positionEntries_nth keys values i :
  (i < List.length keys)%nat ->
  nth_error (positionEntries keys values) i =
  Some (nth i keys EmptyString, trimmedCell values i).
Proof. intros Hi. unfold positionEntries. now rewrite entries_nth. Qed.

Lemma positionEntries_length keys values :
  List.length (positionEntries keys values) = List.length keys.
Proof.
  unfold positionEntries. rewrite length_combine, length_map, length_seq. lia.
Qed.

Lemma forEachHeader_fst hs i values st :
  fst (forEachHeader hs i values st) =
  setAll (combine (map toPropertyKey hs)
                  (map (trimmedCell values) (seq i (List.length hs))))
         (fst st).
Proof.
  revert i st; induction hs as [|h hs IH]; intros i st; simpl; [reflexivity|].
  rewrite IH. simpl. now rewrite cellValue_trimmedCell.
Qed.

(** A record comes from one data line, by the assignments of the header
    positions in order. *)
Lemma rowRecords_built header row r :
  In r (rowRecords header row) ->
  r = setAll (positionEntries (headerKeys header) (cells row)) [].
Proof.
  unfold rowRecords, processRow. fold (cells row).
  destruct (_ || _)%bool; [intros []|].
  destruct (String.eqb _ _); [intros []|].
  pose proof (forEachHeader_fst (normalizedHeadersOf header) 0 (cells row) ([], true)) as E.
  destruct (forEachHeader _ _ _ _) as [obj isRowEmpty].
  destruct (negb isRowEmpty); [|intros []].
  intros [<-|[]]. simpl in E. rewrite E.
  unfold positionEntries, headerKeys. now rewrite length_map.
Qed.

Lemma parseCSV_record_source csvText r :
  In r (parseCSV csvText) ->
  exists header rest row,
    csvLines csvText = header :: rest /\ In row rest /\
    r = setAll (positionEntries (headerKeys header) (cells row)) [].
Proof.
  rewrite parseCSV_rows.
  destruct (csvLines csvText) as [|header rest]; [intros []|].
  intros H. apply in_flat_map in H as [row [Hrow Hr]].
  exists header, rest, row. repeat split; [exact Hrow|].
  now apply rowRecords_built.
Qed.

Lemma obj_get_present k o :
  In k (map fst o) -> exists v, obj_get k o = Some v.
Proof.
  induction o as [|[k1 v1] o IH]; simpl; [intros []|].
  destruct (String.eqb_spec k1 k) as [->|Hne]; [eauto|].
  intros [E|H]; [contradiction | now apply IH].
Qed.

Lemma built_record_keys keys values k :
  In k (map fst (setAll (positionEntries keys values) [])) <-> In k keys.
Proof. rewrite setAll_keys, positionEntries_keys. simpl. intuition. Qed.

(** Every field name of the header is a key of every record. *)
Lemma record_has_header_keys csvText header rest r k :
  csvLines csvText = header :: rest ->
  In r (parseCSV csvText) ->
  In k (headerKeys header) ->
  In k (Object_keys r).
Proof.
  intros Hlines Hr Hk.
  apply parseCSV_record_source in Hr as (header' & rest' & row & E & _ & ->).
  rewrite Hlines in E. injection E as <- <-.
  now apply In_Object_keys, built_record_keys.
Qed.

Lemma headerKeys_of_cell header raw :
  In raw (cells header) ->
  In (toPropertyKey (normalizeHeader (canon raw))) (headerKeys header).
Proof.
  intros H. unfold headerKeys, normalizedHeadersOf. fold (cells header).
  now apply in_map, in_map, in_map.
Qed.

(** C2, as stated, fails.  Under the header [Name,2024,name] the first and the
    third position have the field name [name]: the record of the row
    [Alice,ok,Bob] holds [Bob] there, not the cell of position 0, and has two
    fields for three positions; and it enumerates [2024] before [name]. *)
Lemma record_fields_not_positionwise :
  csvLines repeatedNameInput = ["Name,2024,name"; "Alice,ok,Bob"] /\
  headerKeys "Name,2024,name" = ["name"; "2024"; "name"] /\
  parseCSV repeatedNameInput = [[("name", "Bob"); ("2024", "ok")]] /\
  obj_get "name" [("name", "Bob"); ("2024", "ok")]
    <> Some (trimmedCell (cells "Alice,ok,Bob") 0) /\
  Object_entries [("name", "Bob"); ("2024", "ok")] = [("2024", "ok"); ("name", "Bob")] /\
  Object_entries [("name", "Bob"); ("2024", "ok")]
    <> positionEntries (headerKeys "Name,2024,name") (cells "Alice,ok,Bob").
Proof.
  repeat split; try (vm_compute; reflexivity); vm_compute; discriminate.
Qed.

(** C2, amended.  Every record of the result comes from a data line of the
    input, and has a field for every header position, named by the normalized
    header of that position.  The field of position [i] holds the trimmed
    [i]-th cell of the line, the empty string when the line has no such cell,
    unless a later position has the same field name.  When the field names of
    the header are pairwise distinct and none is an array index, the fields
    are enumerated in header order, one per position. *)
Theorem record_fields_follow_header (csvText : string) (r : object) :
  In r (parseCSV csvText) ->
  exists header rest row,
    csvLines csvText = header :: rest /\ In row rest /\
    (forall i, (i < List.length (headerKeys header))%nat ->
       exists v, obj_get (nth i (headerKeys header) "") r = Some v) /\
    (forall i, (i < List.length (headerKeys header))%nat ->
       (forall j, (i < j < List.length (headerKeys header))%nat ->
          nth j (headerKeys header) "" <> nth i (headerKeys header) "") ->
       obj_get (nth i (headerKeys header) "") r = Some (trimmedCell (cells row) i)) /\
    (NoDup (headerKeys header) ->
     Forall (fun k => isArrayIndex k = false) (headerKeys header) ->
     Object_entries r = positionEntries (headerKeys header) (cells row)).
Proof.
  intros Hr.
  apply parseCSV_record_source in Hr as (header & rest & row & Hlines & Hrow & ->).
  exists header, rest, row.
  split; [exact Hlines|]. split; [exact Hrow|].
  set (keys := headerKeys header). set (values := cells row).
  split; [|split].
  - intros i Hi. apply obj_get_present, built_record_keys. now apply nth_In.
  - intros i Hi Hlast.
    apply (obj_get_setAll_last _ _ i); [now apply positionEntries_nth|].
    intros j k' v' Hlt Hj.
    assert (Hj' : (j < List.length keys)%nat).
    { rewrite <- (positionEntries_length keys values).
      apply nth_error_Some. rewrite Hj. discriminate. }
    rewrite (positionEntries_nth keys values j Hj') in Hj.
    injection Hj as <- _. apply Hlast. lia.
  - intros Hnd Hidx.
    rewrite setAll_fresh; simpl.
    + apply Object_entries_no_index.
      apply (Forall_map fst (fun k => isArrayIndex k = false)).
      now rewrite positionEntries_keys.
    + now rewrite positionEntries_keys.
    + intros k _ [].
Qed.

Lemma record_fields_follow_header_witness :
  exists header rest row,
    csvLines scenario1 = header :: rest /\ In row rest /\
    (forall i, (i < List.length (headerKeys header))%nat ->
       exists v, obj_get (nth i (headerKeys header) "")
                   [("name", "Bob"); ("age", "40")] = Some v) /\
    (forall i, (i < List.length (headerKeys header))%nat ->
       (forall j, (i < j < List.length (headerKeys header))%nat ->
          nth j (headerKeys header) "" <> nth i (headerKeys header) "") ->
       obj_get (nth i (headerKeys header) "") [("name", "Bob"); ("age", "40")]
       = Some (trimmedCell (cells row) i)) /\
    (NoDup (headerKeys header) ->
     Forall (fun k => isArrayIndex k = false) (headerKeys header) ->
     Object_entries [("name", "Bob"); ("age", "40")]
     = positionEntries (headerKeys header) (cells row)).
Proof.
  apply (record_fields_follow_header scenario1 [("name", "Bob"); ("age", "40")]).
  vm_compute. right. left. reflexivity.
Defined.

(** ** Header names *)

Lemma assoc_absent {A : Type} (k : string) (l : list (string * A)) :
  ~ In k (map fst l) -> assoc k l = None.
Proof.
  induction l as [|[k1 v1] l IH]; simpl; intros H; [reflexivity|].
  destruct (String.eqb_spec k1 k) as [->|_]; [intuition|].
  apply IH. intuition.
Qed.

Lemma removeChars_kept s :
  allLowerAlnum (removeChars (fun c => negb (isLowerAlnum c)) s) = true.
Proof.
  induction s as [|c s IH]; simpl; [reflexivity|].
  destruct (isLowerAlnum c) eqn:E; simpl; [now rewrite E|exact IH].
Qed.

Lemma canon_allLowerAlnum raw : allLowerAlnum (canon raw) = true.
Proof. unfold canon. apply removeChars_kept. Qed.

(** Of the members of [Object.prototype] only [constructor] is spelled in
    [[a-z0-9]]. *)
Lemma prototype_lookup h :
  allLowerAlnum h = true -> h <> "constructor" -> assoc h ObjectPrototype = None.
Proof.
  intros Hh Hne. unfold ObjectPrototype, assoc.
  repeat match goal with
         | |- context [String.eqb ?k h] =>
             destruct (String.eqb_spec k h) as [E|_];
             [subst h; first [contradiction (Hne eq_refl) | discriminate Hh]|]
         end.
  reflexivity.
Qed.

(** A canonical name that is neither a key of the rename table nor
    [constructor] is its own normalized header. *)
Lemma unmapped_header_unchanged raw :
  ~ In (canon raw) renameKeys ->
  canon raw <> "constructor" ->
  normalizeHeader (canon raw) = VString (canon raw).
Proof.
  intros Hkeys Hne. unfold normalizeHeader, headerMap_get.
  rewrite (assoc_absent _ headerMap Hkeys).
  now rewrite (prototype_lookup _ (canon_allLowerAlnum raw) Hne).
Qed.

(** C7 fails on a header cell [Constructor].  Its canonical form
    [constructor] is none of the twelve keys, yet [headerMap[h]] finds the
    inherited [Object.prototype.constructor], and the normalized header is the
    function [Object]: the record's field is named by the function's text, not
    [constructor]. *)
Theorem constructor_header_not_unchanged :
  canon "Constructor" = "constructor" /\
  ~ In (canon "Constructor") renameKeys /\
  normalizeHeader (canon "Constructor") = VFunction "Object" /\
  normalizeHeader (canon "Constructor") <> VString (canon "Constructor") /\
  parseCSV constructorInput =
    [[("function Object() { [native code] }", "x"); ("name", "Alice")]].
Proof.
  repeat split; try (vm_compute; reflexivity).
  - vm_compute. intuition discriminate.
  - vm_compute. discriminate.
Qed.

(** C8.  The header cells [Systolic BP] and [Diastolic BP] give the field
    names [systolic] and [diastolic], and every record parsed under a header
    line with these cells has these keys. *)
Theorem blood_pressure_headers_renamed :
  toPropertyKey (normalizeHeader (canon "Systolic BP")) = "systolic" /\
  toPropertyKey (normalizeHeader (canon "Diastolic BP")) = "diastolic" /\
  forall csvText header rest r,
    csvLines csvText = header :: rest ->
    In r (parseCSV csvText) ->
    (In "Systolic BP" (cells header) -> In "systolic" (Object_keys r)) /\
    (In "Diastolic BP" (cells header) -> In "diastolic" (Object_keys r)).
Proof.
  split; [vm_compute; reflexivity|]. split; [vm_compute; reflexivity|].
  intros csvText header rest r Hlines Hr. split; intros Hcell.
  - apply (record_has_header_keys csvText header rest r _ Hlines Hr).
    apply (headerKeys_of_cell header "Systolic BP" Hcell).
  - apply (record_has_header_keys csvText header rest r _ Hlines Hr).
    apply (headerKeys_of_cell header "Diastolic BP" Hcell).
Qed.

Lemma blood_pressure_headers_renamed_witness :
  parseCSV (unlines ["Name,Systolic BP,Diastolic BP"; "Alice,120,80"]) =
    [[("name", "Alice"); ("systolic", "120"); ("diastolic", "80")]] /\
  In "systolic" (Object_keys [("name", "Alice"); ("systolic", "120"); ("diastolic", "80")]) /\
  In "diastolic" (Object_keys [("name", "Alice"); ("systolic", "120"); ("diastolic", "80")]).
Proof.
  split; [vm_compute; reflexivity|].
  pose proof (proj2 (proj2 blood_pressure_headers_renamed)
                (unlines ["Name,Systolic BP,Diastolic BP"; "Alice,120,80"])
                "Name,Systolic BP,Diastolic BP" ["Alice,120,80"]
                [("name", "Alice"); ("systolic", "120"); ("diastolic", "80")]) as H.
  destruct H as [H1 H2].
  - vm_compute; reflexivity.
  - vm_compute. left. reflexivity.
  - split; [apply H1 | apply H2]; vm_compute; intuition.
Defined.

(** ** The 70% test *)

(** On doubles and on integers the test gives the same answer, for all
    lengths up to 150. *)
Lemma double_test_agrees :
  forallb (fun nheaders =>
             forallb (fun nvalues =>
                        Bool.eqb (doubleTooShort nvalues nheaders)
                                 (tooShort nvalues nheaders))
                     (seq 0 151))
          (seq 0 151) = true.
Proof. vm_compute. reflexivity. Qed.

(** ** Search *)

Lemma prefix_spec q s :
  String.prefix q s = true <-> exists post, s = q ++ post.
Proof.
  revert s; induction q as [|a q IH]; intros s.
  - split; [intros _; now exists s | intros _; now destruct s].
  - destruct s as [|b s]; simpl.
    + split; [discriminate | intros [post E]; discriminate].
    + destruct (ascii_dec a b) as [->|Hne].
      * rewrite IH. split; intros [post E]; exists post; congruence.
      * split; [discriminate | intros [post E]; congruence].
Qed.

Lemma includes_spec s q : includes s q = true <-> isSubstring q s.
Proof.
  unfold isSubstring. induction s as [|c s IH].
  - change (includes "" q) with (String.prefix q "" || false).
    rewrite orb_false_r, prefix_spec. split.
    + intros [post E]. now exists EmptyString, post.
    + intros [[|a pre] [post E]]; [now exists post | discriminate].
  - change (includes (String c s) q)
      with (String.prefix q (String c s) || includes s q).
    rewrite orb_true_iff, prefix_spec, IH. split.
    + intros [[post E]|[pre [post E]]].
      * now exists EmptyString, post.
      * exists (String c pre), post. simpl. now rewrite E.
    + intros [[|a pre] [post E]].
      * left. now exists post.
      * right. exists pre, post. simpl in E. congruence.
Qed.

Lemma includes_empty s : includes s EmptyString = true.
Proof. destruct s; reflexivity. Qed.

Lemma item_matches_spec query item :
  existsb (fun value => includes (toLowerCase value) (toLowerCase query))
          (Object_values item) = true
  <-> matchesQuery query item.
Proof.
  unfold matchesQuery. rewrite existsb_exists. split.
  - intros [v [Hv Hinc]]. apply In_Object_values in Hv as [k Hk].
    exists k, v. split; [exact Hk | now apply includes_spec].
  - intros [k [v [Hk Hsub]]]. exists v. split.
    + apply In_Object_values. now exists k.
    + now apply includes_spec.
Qed.

(** [Selected P data] determines its result. *)
Lemma Selected_unique {A : Type} (P : A -> Prop) data out1 out2 :
  Selected P data out1 -> Selected P data out2 -> out1 = out2.
Proof.
  intros H1; revert out2; induction H1; intros out2 H2; inversion H2; subst;
    try reflexivity; try contradiction.
  - f_equal. now apply IHSelected.
  - now apply IHSelected.
Qed.

(** C9.  [filterData] returns, in input order, exactly the records of which
    at least one field value, lower-cased, contains the lower-cased query. *)
Theorem filterData_selects_matching (query : string) (data : list object) :
  Selected (matchesQuery query) data (filterData query data).
Proof.
  unfold filterData. induction data as [|item data IH]; simpl.
  - constructor.
  - destruct (existsb _ (Object_values item)) eqn:E.
    + apply Selected_keep; [now apply item_matches_spec | exact IH].
    + apply Selected_drop; [|exact IH].
      intros H. apply item_matches_spec in H. congruence.
Qed.

Lemma filterData_empty_query_keeps (data : list object) :
  Forall (fun item => item <> []) data -> filterData "" data = data.
Proof.
  intros H. unfold filterData. induction H as [|item data Hitem _ IH]; simpl.
  - reflexivity.
  - assert (E : existsb (fun value => includes (toLowerCase value) "")
                        (Object_values item) = true).
    { destruct item as [|[k v] item]; [contradiction|].
      apply existsb_exists. exists v. split; [|apply includes_empty].
      apply In_Object_values. exists k. now left. }
    simpl in E |- *. rewrite E. f_equal. exact IH.
Qed.

(** C10.  With the empty query, [filterData] returns a sequence of records
    that each have at least one field as it is. *)
Theorem filterData_empty_query (data : list object) :
  Forall (fun item => item <> []) data -> filterData "" data = data.
Proof. apply filterData_empty_query_keeps. Qed.

Lemma filterData_empty_query_witness :
  filterData "" [[("name", "Alice"); ("age", "30")]; [("7", "")]] =
  [[("name", "Alice"); ("age", "30")]; [("7", "")]].
Proof.
  apply (filterData_empty_query [[("name", "Alice"); ("age", "30")]; [("7", "")]]).
  repeat constructor; discriminate.
Defined.

(** The records of the parser have a field each, the header line having at
    least one cell: the empty query gives a parsed dataset back whole. *)
Lemma parseCSV_record_nonempty csvText r : In r (parseCSV csvText) -> r <> [].
Proof.
  intros Hr. apply parseCSV_record_source in Hr as (header & rest & row & _ & _ & ->).
  destruct (headerKeys header) as [|k keys] eqn:E.
  - unfold headerKeys, normalizedHeadersOf in E.
    apply map_eq_nil, map_eq_nil, map_eq_nil in E. now apply split_not_nil in E.
  - intros Hnil.
    assert (H : In k (map fst (setAll (positionEntries (k :: keys) (cells row)) []))).
    { apply built_record_keys. now left. }
    rewrite Hnil in H. exact H.
Qed.

Lemma filterData_empty_query_parsed csvText :
  filterData "" (parseCSV csvText) = parseCSV csvText.
Proof.
  apply filterData_empty_query_keeps, Forall_forall.
  intros r Hr. now apply parseCSV_record_nonempty in Hr.
Qed.

(** ** The first scenario *)

Example scenario1_records :
  parseCSV scenario1 =
  [[("name", "Alice"); ("age", "30")]; [("name", "Bob"); ("age", "40")]].
Proof. vm_compute. reflexivity. Qed.

(* ================================================================== *)
(** * Further properties of the parser *)

(** ** Lines and cells *)

Lemma split_no_sep sep s w :
  In w (split sep s) -> ~ In sep (list_ascii_of_string w).
Proof.
  revert w; induction s as [|c s IH]; intros w; simpl.
  - intros [<-|[]]. intros [].
  - destruct (Ascii.eqb_spec c sep) as [->|Hne].
    + intros [<-|H]; [intros [] | now apply IH].
    + destruct (split sep s) as [|w0 ws] eqn:E; simpl.
      * intros [<-|[]]. simpl. intuition.
      * intros [<-|H]; simpl.
        -- intros [Hc|Hin]; [contradiction|]. apply (IH w0); [now left | exact Hin].
        -- apply IH. now right.
Qed.

Lemma split_chars sep s w x :
  In w (split sep s) -> In x (list_ascii_of_string w) -> In x (list_ascii_of_string s).
Proof.
  revert w; induction s as [|c s IH]; intros w; simpl.
  - intros [<-|[]]. intros [].
  - destruct (Ascii.eqb_spec c sep) as [->|Hne].
    + intros [<-|H]; [intros [] |]. intros Hx. right. now apply (IH w).
    + destruct (split sep s) as [|w0 ws] eqn:E; simpl.
      * intros [<-|[]]. simpl. intuition.
      * intros [<-|H]; simpl.
        -- intros [Hc|Hin]; [now left|]. right. apply (IH w0); [now left | exact Hin].
        -- intros Hx. right. apply (IH w); [now right | exact Hx].
Qed.

Lemma csvLines_member csvText l :
  In l (csvLines csvText) -> singleLine l /\ isBlank l = false.
Proof.
  unfold csvLines. rewrite filter_In. intros [Hin Hnb]. split.
  - now apply (split_no_sep LF csvText).
  - now apply negb_true_iff.
Qed.

(** X1.  Parsing goes line by line under the header: the records of a text
    followed by more lines are the records of the text, followed by the
    records those lines give under the text's header. *)
Theorem parse_appended_lines (above below : list string) (header : string) :
  hd_error (csvLines (unlines above)) = Some header ->
  parseCSV (unlines (above ++ below)) =
  (parseCSV (unlines above) ++ parseCSV (unlines (header :: below)))%list.
Proof.
  intros Hhd.
  assert (Hmem : In header (csvLines (unlines above))).
  { destruct (csvLines (unlines above)); [discriminate|].
    injection Hhd as ->. now left. }
  apply csvLines_member in Hmem as [Hline Hnb].
  rewrite !parseCSV_rows, !csvLines_unlines.
  rewrite csvLines_unlines in Hhd.
  rewrite flat_map_app, filter_app.
  change (flat_map (split LF) (header :: below))
    with (split LF header ++ flat_map (split LF) below)%list.
  rewrite filter_app, (split_single LF header Hline).
  destruct (filter _ (flat_map (split LF) above)) as [|h rest]; [discriminate|].
  injection Hhd as ->.
  simpl. rewrite Hnb. simpl. apply flat_map_app.
Qed.

Lemma parse_appended_lines_witness :
  parseCSV (unlines (["Name,Age"; "Alice,30"] ++ ["Bob,40"; "Cy,50"])) =
  (parseCSV (unlines ["Name,Age"; "Alice,30"]) ++
   parseCSV (unlines ["Name,Age"; "Bob,40"; "Cy,50"]))%list.
Proof.
  apply (parse_appended_lines ["Name,Age"; "Alice,30"] ["Bob,40"; "Cy,50"] "Name,Age").
  vm_compute. reflexivity.
Defined.

(** X2.  A blank line, wherever it stands in the text (before the header
    too), changes nothing. *)
Theorem blank_line_ignored (above below : list string) (blank : string) :
  singleLine blank ->
  isBlank blank = true ->
  parseCSV (unlines (above ++ blank :: below)) = parseCSV (unlines (above ++ below)).
Proof.
  intros Hline Hblank.
  assert (E : csvLines (unlines (above ++ blank :: below)) =
              csvLines (unlines (above ++ below))).
  { rewrite !csvLines_unlines, !flat_map_app, !filter_app.
    change (flat_map (split LF) (blank :: below))
      with (split LF blank ++ flat_map (split LF) below)%list.
    rewrite filter_app, (split_single LF blank Hline).
    simpl. now rewrite Hblank. }
  now rewrite !parseCSV_rows, E.
Qed.

Lemma blank_line_ignored_witness :
  parseCSV (unlines ([] ++ "  " :: ["Name,Age"; "Alice,30"])) =
  parseCSV (unlines ([] ++ ["Name,Age"; "Alice,30"])).
Proof.
  apply (blank_line_ignored [] ["Name,Age"; "Alice,30"] "  ").
  - unfold singleLine; simpl; intuition discriminate.
  - vm_compute; reflexivity.
Defined.

(** X10.  Splitting a string at a separator and joining the pieces with that
    separator gives the string back. *)
Theorem join_split_roundtrip (sep : ascii) (s : string) :
  join (String sep EmptyString) (split sep s) = s.
Proof.
  unfold join. induction s as [|c s IH]; [reflexivity|].
  simpl split. destruct (split sep s) as [|w ws] eqn:E;
    [now apply split_not_nil in E|].
  destruct (Ascii.eqb_spec c sep) as [->|_].
  - change (String.concat (String sep "") (EmptyString :: w :: ws))
      with (String sep (String.concat (String sep "") (w :: ws))).
    now rewrite IH.
  - rewrite <- IH. destruct ws; reflexivity.
Qed.

(** ** Field names *)

(** X5.  Every record of a result has exactly the field names of the header:
    all records of one parse have the same keys. *)
Theorem record_keys_are_header_keys (csvText header : string) (rest : list string)
    (r : object) (k : string) :
  csvLines csvText = header :: rest ->
  In r (parseCSV csvText) ->
  (In k (Object_keys r) <-> In k (headerKeys header)).
Proof.
  intros Hlines Hr.
  apply parseCSV_record_source in Hr as (header' & rest' & row & E & _ & ->).
  rewrite Hlines in E. injection E as <- <-.
  rewrite In_Object_keys. apply built_record_keys.
Qed.

Lemma record_keys_are_header_keys_witness :
  In "age" (Object_keys [("name", "Bob"); ("age", "40")]) <->
  In "age" (headerKeys "Name,Age").
Proof.
  apply (record_keys_are_header_keys scenario1 "Name,Age" ["Alice,30"; "Bob,40"]).
  - vm_compute; reflexivity.
  - vm_compute. right. left. reflexivity.
Defined.

Lemma header_unchanged_except_three_aux (raw : string) :
  ~ In (canon raw) ["systolicbp"; "diastolicbp"; "constructor"] ->
  normalizeHeader (canon raw) = VString (canon raw).
Proof.
  intros Hex.
  destruct (in_dec string_dec (canon raw) renameKeys) as [Hin|Hout].
  - unfold renameKeys in Hin. simpl in Hin.
    repeat (destruct Hin as [E|Hin];
            [rewrite <- E in *; first [reflexivity | exfalso; apply Hex; simpl; tauto]|]).
    destruct Hin.
  - apply unmapped_header_unchanged; [exact Hout|].
    intros E. apply Hex. rewrite E. simpl; tauto.
Qed.

(** X8.  Header normalization changes exactly three canonical names:
    [systolicbp], [diastolicbp] and [constructor].  Every other canonical
    name, in the rename table or not, is the field name as it is, and these
    three are not. *)
Theorem header_unchanged_except_three (raw : string) :
  ~ In (canon raw) ["systolicbp"; "diastolicbp"; "constructor"] <->
  normalizeHeader (canon raw) = VString (canon raw).
Proof.
  split; [apply header_unchanged_except_three_aux|].
  intros E Hin. simpl in Hin.
  destruct Hin as [H|[H|[H|[]]]]; rewrite <- H in E; discriminate E.
Qed.

Lemma header_unchanged_except_three_witness :
  normalizeHeader (canon " Heart-Rate ") = VString (canon " Heart-Rate ") /\
  normalizeHeader (canon "Blood Group") = VString (canon "Blood Group").
Proof.
  split.
  - apply (proj1 (header_unchanged_except_three " Heart-Rate ")).
    vm_compute. intuition discriminate.
  - apply (proj1 (header_unchanged_except_three "Blood Group")).
    vm_compute. intuition discriminate.
Defined.

(** X9.  A field name of a header is spelled in [[a-z0-9]] only, whatever
    the header cell holds; the one exception is the text of the function
    [Object], which a cell whose canonical form is [constructor] gives. *)
Theorem field_names_alnum (headerLine k : string) :
  In k (headerKeys headerLine) ->
  allLowerAlnum k = true \/ k = toPropertyKey (VFunction "Object").
Proof.
  unfold headerKeys, normalizedHeadersOf. rewrite !map_map, in_map_iff.
  intros [raw [<- _]].
  destruct (in_dec string_dec (canon raw)
              ["systolicbp"; "diastolicbp"; "constructor"]) as [Hin|Hout].
  - simpl in Hin. destruct Hin as [E|[E|[E|[]]]]; rewrite <- E;
      [left; reflexivity | left; reflexivity | right; reflexivity].
  - left. rewrite (header_unchanged_except_three_aux raw Hout).
    apply canon_allLowerAlnum.
Qed.

Lemma field_names_alnum_witness :
  allLowerAlnum "heartrate" = true \/ "heartrate" = toPropertyKey (VFunction "Object").
Proof.
  apply (field_names_alnum "Name, Heart Rate ,Constructor" "heartrate").
  vm_compute. right. left. reflexivity.
Defined.

(** ** Trimming *)

Lemma trimEnd_cons c s :
  trimEnd (String c s) =
  match trimEnd s with
  | EmptyString => if isWhiteSpace c then EmptyString else String c EmptyString
  | r => String c r
  end.
Proof. reflexivity. Qed.

Lemma trimEnd_snoc_ws s c :
  isWhiteSpace c = true -> trimEnd (s ++ String c EmptyString) = trimEnd s.
Proof.
  intros H. induction s as [|a s IH].
  - simpl. now rewrite H.
  - change (String a s ++ String c EmptyString)
      with (String a (s ++ String c EmptyString)).
    now rewrite !trimEnd_cons, IH.
Qed.

Lemma trim_snoc_ws s c :
  isWhiteSpace c = true -> trim (s ++ String c EmptyString) = trim s.
Proof.
  intros H. unfold trim. induction s as [|a s IH].
  - simpl. now rewrite H.
  - simpl. destruct (isWhiteSpace a); [exact IH|].
    apply (trimEnd_snoc_ws (String a s) c H).
Qed.

Lemma trimEnd_idem s : trimEnd (trimEnd s) = trimEnd s.
Proof.
  induction s as [|a s IH]; [reflexivity|].
  rewrite trimEnd_cons. destruct (trimEnd s) as [|b r] eqn:E.
  - destruct (isWhiteSpace a) eqn:W; [reflexivity|].
    simpl. now rewrite W.
  - now rewrite trimEnd_cons, IH.
Qed.

Lemma trimStart_startsClean s : startsClean (trimStart s).
Proof.
  induction s as [|a s IH]; simpl; [exact I|].
  destruct (isWhiteSpace a) eqn:W; [exact IH | exact W].
Qed.

Lemma trimEnd_startsClean s : startsClean s -> startsClean (trimEnd s).
Proof.
  destruct s as [|a s]; [intros _; exact I|].
  simpl startsClean at 1. intros W. rewrite trimEnd_cons.
  destruct (trimEnd s); [rewrite W|]; exact W.
Qed.

Lemma trimStart_clean s : startsClean s -> trimStart s = s.
Proof. destruct s as [|a s]; simpl; [reflexivity | now intros ->]. Qed.

Lemma trim_idem s : trim (trim s) = trim s.
Proof.
  unfold trim.
  rewrite (trimStart_clean (trimEnd (trimStart s))).
  - apply trimEnd_idem.
  - apply trimEnd_startsClean, trimStart_startsClean.
Qed.

Lemma trimStart_chars s x :
  In x (list_ascii_of_string (trimStart s)) -> In x (list_ascii_of_string s).
Proof.
  induction s as [|a s IH]; simpl; [tauto|].
  destruct (isWhiteSpace a); simpl; tauto.
Qed.

Lemma trimEnd_chars s x :
  In x (list_ascii_of_string (trimEnd s)) -> In x (list_ascii_of_string s).
Proof.
  induction s as [|a s IH]; [simpl; tauto|].
  rewrite trimEnd_cons. destruct (trimEnd s) as [|b r].
  - destruct (isWhiteSpace a); simpl; tauto.
  - simpl in *. tauto.
Qed.

Lemma trim_chars s x :
  In x (list_ascii_of_string (trim s)) -> In x (list_ascii_of_string s).
Proof. intros H. now apply trimStart_chars, trimEnd_chars. Qed.

(** ** What the parser reads of a line *)

Lemma map_factor {A B C : Type} (f : A -> B) (g : B -> C) (l l' : list A) :
  map f l = map f l' -> map (fun x => g (f x)) l = map (fun x => g (f x)) l'.
Proof. intros H. now rewrite <- !(map_map f g), H. Qed.

Lemma same_trims_canon (values values' : list string) :
  map trim values = map trim values' -> map canon values = map canon values'.
Proof.
  apply (map_factor trim
           (fun t => removeChars (fun c => negb (isLowerAlnum c))
                       (removeChars isWhiteSpace (toLowerCase t)))).
Qed.

Lemma same_trims_blank (values values' : list string) :
  map trim values = map trim values' ->
  forallb isBlank values = forallb isBlank values'.
Proof.
  intros H.
  apply (map_factor trim (fun t => String.eqb t EmptyString)) in H.
  revert values' H; induction values as [|v values IH]; intros [|v' values'] H;
    try discriminate; [reflexivity|].
  simpl in H. injection H as Hv H. simpl. unfold isBlank at 1 3.
  now rewrite Hv, (IH values').
Qed.

Lemma same_trims_cell (values values' : list string) i :
  map trim values = map trim values' ->
  cellValue values i = cellValue values' i.
Proof.
  intros H. rewrite !cellValue_trimmedCell. unfold trimmedCell.
  pose proof (nth_error_map trim i values) as E.
  pose proof (nth_error_map trim i values') as E'.
  rewrite H in E. rewrite E' in E.
  destruct (nth_error values i), (nth_error values' i); simpl in E; congruence.
Qed.

Lemma forEachHeader_ext hs i values values' st :
  (forall j, cellValue values j = cellValue values' j) ->
  forEachHeader hs i values st = forEachHeader hs i values' st.
Proof.
  intros H. revert i st; induction hs as [|h hs IH]; intros i st; simpl;
    [reflexivity|].
  now rewrite H, IH.
Qed.

(** The records of a data line depend on the header line through the
    canonical forms of its cells, and on the data line through its trimmed
    cells. *)
Lemma rowRecords_ext header header' row row' :
  map canon (cells header) = map canon (cells header') ->
  map trim (cells row) = map trim (cells row') ->
  rowRecords header row = rowRecords header' row'.
Proof.
  intros Hh Hr. unfold rowRecords, processRow, normalizedHeadersOf, fingerprint.
  fold (cells header) (cells header') (cells row) (cells row').
  rewrite Hh, (same_trims_canon _ _ Hr), (same_trims_blank _ _ Hr).
  rewrite (forEachHeader_ext _ 0 (cells row) (cells row'))
    by (intros j; now apply same_trims_cell).
  assert (El : List.length (cells row) = List.length (cells row')).
  { rewrite <- (length_map trim (cells row)), Hr. apply length_map. }
  now rewrite El.
Qed.

Lemma sameCells_refl l : sameCells l l.
Proof. now split. Qed.

Lemma sameCells_filter L L' :
  Forall2 sameCells L L' ->
  Forall2 sameCells (filter (fun line => negb (isBlank line)) L)
                    (filter (fun line => negb (isBlank line)) L').
Proof.
  induction 1 as [|l l' L L' Hl _ IH]; simpl; [constructor|].
  destruct Hl as [Hb Hc]. rewrite <- Hb.
  destruct (isBlank l) eqn:E; simpl; [exact IH|].
  constructor; [|exact IH]. split; [congruence | exact Hc].
Qed.

Lemma parseLines_ext L L' :
  Forall2 sameCells L L' -> parseLines L = parseLines L'.
Proof.
  intros [|h h' rest rest' [_ Hh] Hrest]; [reflexivity|]. simpl.
  apply same_trims_canon in Hh.
  induction Hrest as [|row row' rest rest' [_ Hr] _ IH]; simpl; [reflexivity|].
  now rewrite (rowRecords_ext h h' row row' Hh Hr), IH.
Qed.

Lemma parseCSV_parseLines csvText : parseCSV csvText = parseLines (csvLines csvText).
Proof. apply parseCSV_rows. Qed.

(** X4.  The header line counts through the canonical forms of its cells
    only: two header lines that differ in letter case, spacing or punctuation
    give the same records for the same data lines. *)
Theorem header_spelling_irrelevant (header header' : string) (rows : list string) :
  singleLine header -> singleLine header' ->
  isBlank header = false -> isBlank header' = false ->
  map canon (cells header) = map canon (cells header') ->
  parseCSV (unlines (header :: rows)) = parseCSV (unlines (header' :: rows)).
Proof.
  intros Hl Hl' Hb Hb' Hc.
  rewrite !parseCSV_rows, !csvLines_unlines.
  change (flat_map (split LF) (header :: rows))
    with (split LF header ++ flat_map (split LF) rows)%list.
  change (flat_map (split LF) (header' :: rows))
    with (split LF header' ++ flat_map (split LF) rows)%list.
  rewrite !filter_app, (split_single LF header Hl), (split_single LF header' Hl').
  simpl. rewrite Hb, Hb'. simpl.
  apply flat_map_ext. intros row. now apply rowRecords_ext.
Qed.

Lemma header_spelling_irrelevant_witness :
  parseCSV (unlines ["Patient Name , AGE (years)"; "Alice,30"]) =
  parseCSV (unlines ["patientname,ageyears"; "Alice,30"]).
Proof.
  apply (header_spelling_irrelevant
           "Patient Name , AGE (years)" "patientname,ageyears" ["Alice,30"]).
  - unfold singleLine; simpl; intuition discriminate.
  - unfold singleLine; simpl; intuition discriminate.
  - vm_compute; reflexivity.
  - vm_compute; reflexivity.
  - vm_compute; reflexivity.
Defined.

(** ** CRLF line ends *)

Lemma chars_app a b :
  list_ascii_of_string (a ++ b) =
  (list_ascii_of_string a ++ list_ascii_of_string b)%list.
Proof. induction a as [|c a IH]; simpl; [reflexivity | now rewrite IH]. Qed.

Lemma append_shift a c b :
  a ++ String c b = (a ++ String c EmptyString) ++ b.
Proof. induction a as [|x a IH]; simpl; [reflexivity | now rewrite IH]. Qed.

Lemma split_snoc sep c s :
  c <> sep ->
  split sep (s ++ String c EmptyString) = appendLast c (split sep s).
Proof.
  intros Hne. induction s as [|a s IH]; simpl.
  - destruct (Ascii.eqb_spec c sep); [contradiction | reflexivity].
  - rewrite IH. destruct (split sep s) as [|w ws] eqn:E;
      [now apply split_not_nil in E|].
    destruct (Ascii.eqb a sep); [reflexivity|].
    destruct ws; reflexivity.
Qed.

Lemma appendLast_trims c l :
  isWhiteSpace c = true -> map trim (appendLast c l) = map trim l.
Proof.
  intros H. induction l as [|w [|w' ws] IH]; [reflexivity| |].
  - simpl. now rewrite trim_snoc_ws.
  - change (trim w :: map trim (appendLast c (w' :: ws)) =
            trim w :: map trim (w' :: ws)).
    now rewrite IH.
Qed.

Lemma sameCells_withCR l : sameCells l (l ++ String CR EmptyString).
Proof.
  split.
  - unfold isBlank. now rewrite trim_snoc_ws.
  - unfold cells. rewrite split_snoc by discriminate.
    now rewrite appendLast_trims.
Qed.

Lemma singleLine_withCR l : singleLine l -> singleLine (l ++ String CR EmptyString).
Proof.
  unfold singleLine. rewrite chars_app, in_app_iff. simpl.
  intros H [Hin|[E|[]]]; [contradiction | discriminate].
Qed.

Lemma crlf_lines ls :
  Forall singleLine ls -> ls <> [] ->
  Forall2 sameCells ls (split LF (join crlf ls)).
Proof.
  unfold join. induction ls as [|x [|y ys] IH]; intros Hls Hne.
  - contradiction.
  - simpl. inversion Hls; subst. rewrite split_single by assumption.
    constructor; [apply sameCells_refl | constructor].
  - inversion Hls as [|? ? Hx Hrest]; subst.
    change (String.concat crlf (x :: y :: ys))
      with (x ++ String CR (String LF (String.concat crlf (y :: ys)))).
    rewrite append_shift, split_app_sep.
    rewrite (split_single LF _ (singleLine_withCR x Hx)).
    constructor; [apply sameCells_withCR|].
    apply IH; [exact Hrest | discriminate].
Qed.

Lemma flat_map_single ls :
  Forall singleLine ls -> flat_map (split LF) ls = ls.
Proof.
  induction 1 as [|l ls Hl _ IH]; simpl; [reflexivity|].
  now rewrite (split_single LF l Hl), IH.
Qed.

(** X3.  A text whose lines end in CRLF parses to the records of the same
    lines ended by LF: the carriage return that stays at the end of every
    line after the split is trimmed away with the last cell. *)
Theorem crlf_line_ends_ignored (ls : list string) :
  Forall singleLine ls ->
  parseCSV (join crlf ls) = parseCSV (unlines ls).
Proof.
  intros Hls. destruct ls as [|l ls]; [reflexivity|].
  rewrite !parseCSV_parseLines, csvLines_unlines, (flat_map_single _ Hls).
  symmetry. apply parseLines_ext, sameCells_filter, crlf_lines;
    [exact Hls | discriminate].
Qed.

Lemma crlf_line_ends_ignored_witness :
  parseCSV (join crlf ["Name,Age"; "Alice,30"; "Bob,40"; ""]) =
  parseCSV (unlines ["Name,Age"; "Alice,30"; "Bob,40"; ""]).
Proof.
  apply (crlf_line_ends_ignored ["Name,Age"; "Alice,30"; "Bob,40"; ""]).
  repeat constructor; unfold singleLine; simpl; intuition discriminate.
Defined.

(** ** The values of a record *)

Lemma obj_set_entries k v o kv :
  In kv (obj_set k v o) -> kv = (k, v) \/ In kv o.
Proof.
  induction o as [|[k1 v1] o IH]; simpl.
  - intros [<-|[]]. now left.
  - destruct (String.eqb k1 k) eqn:E; simpl.
    + apply String.eqb_eq in E as ->. intros [<-|H]; [now left | right; now right].
    + intros [<-|H]; [right; now left|].
      destruct (IH H) as [->|H']; [now left | right; now right].
Qed.

Lemma setAll_entries kvs o kv :
  In kv (setAll kvs o) -> In kv o \/ In kv kvs.
Proof.
  unfold setAll. revert o; induction kvs as [|[k v] kvs IH]; intros o; simpl.
  - now left.
  - intros H. destruct (IH _ H) as [H'|H']; [|right; now right].
    apply obj_set_entries in H' as [->|H']; [right; now left | now left].
Qed.

(** A value of a record is a trimmed cell of a data line, or the empty
    string. *)
Lemma record_value_source csvText r k v :
  In r (parseCSV csvText) -> In (k, v) r ->
  v = EmptyString \/
  exists row c, In row (csvLines csvText) /\ In c (cells row) /\ v = trim c.
Proof.
  intros Hr Hkv.
  apply parseCSV_record_source in Hr as (header & rest & row & Hlines & Hrow & ->).
  apply setAll_entries in Hkv as [[]|Hkv].
  apply In_nth_error in Hkv as [i Hi].
  assert (Hlt : (i < List.length (headerKeys header))%nat).
  { rewrite <- (positionEntries_length _ (cells row)).
    apply nth_error_Some. rewrite Hi. discriminate. }
  rewrite (positionEntries_nth _ _ i Hlt) in Hi. injection Hi as _ <-.
  unfold trimmedCell. destruct (nth_error (cells row) i) as [c|] eqn:E; [|now left].
  right. exists row, c. repeat split.
  - rewrite Hlines. now right.
  - now apply nth_error_In in E.
Qed.

(** X6.  Every value of every record is trimmed: it has no white space at
    either end. *)
Theorem record_values_trimmed (csvText : string) (r : object) (k v : string) :
  In r (parseCSV csvText) -> In (k, v) r -> trim v = v.
Proof.
  intros Hr Hkv.
  destruct (record_value_source csvText r k v Hr Hkv) as [->|(row & c & _ & _ & ->)];
    [reflexivity | apply trim_idem].
Qed.

Lemma record_values_trimmed_witness :
  trim "Alice B" = "Alice B".
Proof.
  apply (record_values_trimmed
           (unlines ["Name,Age"; "  Alice B  , 30 "])
           [("name", "Alice B"); ("age", "30")] "name" "Alice B").
  - vm_compute. left. reflexivity.
  - left. reflexivity.
Defined.

(** X11.  No value of a record holds a comma or a line feed. *)
Theorem record_values_no_separator (csvText : string) (r : object) (k v : string) :
  In r (parseCSV csvText) -> In (k, v) r ->
  ~ In comma (list_ascii_of_string v) /\ ~ In LF (list_ascii_of_string v).
Proof.
  intros Hr Hkv.
  destruct (record_value_source csvText r k v Hr Hkv)
    as [->|(row & c & Hrow & Hc & ->)]; [split; intros []|].
  split; intros H; apply trim_chars in H.
  - now apply (split_no_sep comma row c Hc).
  - apply csvLines_member in Hrow as [Hline _].
    apply Hline. now apply (split_chars comma row c).
Qed.

Lemma record_values_no_separator_witness :
  ~ In comma (list_ascii_of_string "30") /\ ~ In LF (list_ascii_of_string "30").
Proof.
  apply (record_values_no_separator scenario1 [("name", "Alice"); ("age", "30")] "age" "30").
  - vm_compute. left. reflexivity.
  - right. left. reflexivity.
Defined.

(** ** Rows without content *)

Lemma forEachHeader_snd hs i values st :
  snd (forEachHeader hs i values st) =
  snd st && forallb (fun j => String.eqb (trimmedCell values j) EmptyString)
                    (seq i (List.length hs)).
Proof.
  revert i st; induction hs as [|h hs IH]; intros i st; simpl.
  - now rewrite andb_true_r.
  - rewrite IH. simpl. rewrite cellValue_trimmedCell.
    destruct (String.eqb (trimmedCell values i) EmptyString), (snd st); reflexivity.
Qed.

Lemma forallb_false_witness {A : Type} (f : A -> bool) l :
  forallb f l = false -> exists x, In x l /\ f x = false.
Proof.
  induction l as [|a l IH]; simpl; [discriminate|].
  destruct (f a) eqn:E; simpl.
  - intros H. destruct (IH H) as [x [Hin Hx]]. exists x. split; [now right | exact Hx].
  - intros _. exists a. split; [now left | exact E].
Qed.

(** A line that gives a record has a non-blank cell at a header position. *)
Lemma rowRecords_nonblank_cell header row r :
  In r (rowRecords header row) ->
  exists i, (i < List.length (headerKeys header))%nat /\
            trimmedCell (cells row) i <> EmptyString.
Proof.
  unfold rowRecords, processRow. fold (cells row).
  destruct (_ || _)%bool; [intros []|].
  destruct (String.eqb _ _); [intros []|].
  pose proof (forEachHeader_snd (normalizedHeadersOf header) 0 (cells row) ([], true)) as E.
  destruct (forEachHeader _ _ _ _) as [obj isRowEmpty].
  destruct isRowEmpty; [intros []|]. intros _.
  simpl in E. symmetry in E. apply forallb_false_witness in E as [i [Hi Hne]].
  apply in_seq in Hi. exists i. split.
  - unfold headerKeys. rewrite length_map. lia.
  - now apply String.eqb_neq.
Qed.

(** X7.  Under a header whose field names are pairwise distinct, every
    record has a field with a non-empty value: a row of blanks gives no
    record. *)
Theorem record_has_nonempty_value (csvText header : string) (rest : list string)
    (r : object) :
  csvLines csvText = header :: rest ->
  NoDup (headerKeys header) ->
  In r (parseCSV csvText) ->
  exists k v, In (k, v) r /\ v <> EmptyString.
Proof.
  intros Hlines Hnd Hr. rewrite parseCSV_rows, Hlines in Hr.
  apply in_flat_map in Hr as [row [_ Hr]].
  destruct (rowRecords_nonblank_cell header row r Hr) as [i [Hi Hne]].
  apply rowRecords_built in Hr. subst r.
  rewrite setAll_fresh; simpl.
  - exists (nth i (headerKeys header) EmptyString), (trimmedCell (cells row) i).
    split; [|exact Hne].
    apply (nth_error_In _ i). now apply positionEntries_nth.
  - now rewrite positionEntries_keys.
  - intros k _ [].
Qed.

Lemma record_has_nonempty_value_witness :
  exists k v, In (k, v) [("name", ""); ("age", "30")] /\ v <> EmptyString.
Proof.
  apply (record_has_nonempty_value (unlines ["Name,Age"; ",30"]) "Name,Age" [",30"]).
  - vm_compute; reflexivity.
  - vm_compute. repeat constructor; simpl; intuition discriminate.
  - vm_compute. left. reflexivity.
Defined.

(** With a repeated field name the later cell overwrites the earlier one, and
    a record may be left with empty values only. *)
Remark repeated_name_blank_record :
  parseCSV (unlines ["Note,note"; "first,"]) = [[("note", "")]].
Proof. vm_compute. reflexivity. Qed.

(* ================================================================== *)
(** * Further properties of the fetch path *)

(** X12.  [fetchData] never throws and sends one request.  Either it logs an
    error, does not call [parseCSV] and returns the empty sequence, or the
    response was OK with a text, [parseCSV] is called once, on that text, and
    its result is returned. *)
Theorem fetchData_parsed_or_empty (net : string -> fetch_outcome) (now : N)
    (url : string) :
  exists data,
    outcome (fetchData net now url) = Some data /\
    ((trace (fetchData net now url) =
        [EvFetch (cacheBusterUrl url now); EvConsoleError] /\ data = []) \/
     (exists r csvText,
        net (cacheBusterUrl url now) = Resolved r /\
        ok r = true /\ text r = Some csvText /\
        trace (fetchData net now url) =
          [EvFetch (cacheBusterUrl url now); EvParseCSV csvText] /\
        data = parseCSV csvText)).
Proof.
  unfold fetchData, fetch, response_text, bind, emit.
  destruct (net (cacheBusterUrl url now)) as [|[[] status [csvText|]]] eqn:E; simpl.
  - eexists; split; [reflexivity|]. left. now split.
  - eexists; split; [reflexivity|]. right.
    exists {| ok := true; status := status; text := Some csvText |}, csvText.
    repeat split; reflexivity.
  - eexists; split; [reflexivity|]. left. now split.
  - eexists; split; [reflexivity|]. left. now split.
  - eexists; split; [reflexivity|]. left. now split.
Qed.

Lemma append_cancel_l (p a b : string) : p ++ a = p ++ b -> a = b.
Proof. induction p as [|c p IH]; simpl; [tauto|]. intros H. injection H as H. now apply IH. Qed.

Lemma N_to_string_inj n m : N_to_string n = N_to_string m -> n = m.
Proof.
  unfold N_to_string. intros H.
  apply DecimalN.Unsigned.to_uint_inj.
  pose proof (NilEmpty.usu (N.to_uint n)) as E1.
  pose proof (NilEmpty.usu (N.to_uint m)) as E2.
  rewrite H in E1. congruence.
Qed.

(** X13.  The cache-busting parameter tells requests apart: two requests for
    one URL at different clock readings go to different addresses. *)
Theorem cacheBusterUrl_distinct (url : string) (now1 now2 : N) :
  now1 <> now2 -> cacheBusterUrl url now1 <> cacheBusterUrl url now2.
Proof.
  intros Hne E. apply Hne. unfold cacheBusterUrl in E.
  now apply append_cancel_l, append_cancel_l, N_to_string_inj in E.
Qed.

Lemma cacheBusterUrl_distinct_witness :
  cacheBusterUrl DOCTORS_DB_URL 1700000000000 <>
  cacheBusterUrl DOCTORS_DB_URL 1700000015000.
Proof.
  apply (cacheBusterUrl_distinct DOCTORS_DB_URL 1700000000000 1700000015000).
  discriminate.
Defined.

(** X15.  A load always completes, and what it leaves in the two arrays is
    decided by the network and the clock alone: nothing of the datasets held
    before the load survives it. *)
Theorem load_replaces_both_datasets (net : string -> fetch_outcome) (now1 now2 : N) :
  exists st', forall st, outcome (fetchAndLoadData net now1 now2 st) = Some st'.
Proof.
  destruct (fetchData_returns net now1 DOCTORS_DB_URL) as [r1 E1].
  destruct (fetchData_returns net now2 PATIENT_DB_URL) as [r2 E2].
  exists {| doctorsData := r1; databaseData := r2 |}. intros st.
  now apply fetchAndLoadData_outcome.
Qed.

(* ================================================================== *)
(** * Further properties of the search *)

Lemma string_app_assoc (a b c : string) : (a ++ b) ++ c = a ++ b ++ c.
Proof. induction a as [|x a IH]; simpl; [reflexivity | now rewrite IH]. Qed.

Lemma isSubstring_trans a b c :
  isSubstring a b -> isSubstring b c -> isSubstring a c.
Proof.
  intros [p1 [q1 ->]] [p2 [q2 ->]].
  exists (p2 ++ p1), (q1 ++ q2).
  now rewrite !string_app_assoc.
Qed.

(** X16.  A query that contains an earlier query narrows its result: filtering
    the earlier result with the longer query gives what filtering the whole
    dataset with it gives. *)
Theorem filterData_narrowing (query query' : string) (data : list object) :
  isSubstring (toLowerCase query) (toLowerCase query') ->
  filterData query' (filterData query data) = filterData query' data.
Proof.
  intros Hsub. unfold filterData. induction data as [|item data IH]; [reflexivity|].
  simpl.
  destruct (existsb (fun value => includes (toLowerCase value) (toLowerCase query))
                    (Object_values item)) eqn:E; simpl.
  - now rewrite IH.
  - destruct (existsb (fun value => includes (toLowerCase value) (toLowerCase query'))
                      (Object_values item)) eqn:E'; [|exact IH].
    exfalso. apply item_matches_spec in E' as (k & v & Hin & Hv).
    assert (Hm : matchesQuery query item).
    { exists k, v. split; [exact Hin|]. now apply (isSubstring_trans _ _ _ Hsub). }
    apply item_matches_spec in Hm. congruence.
Qed.

Lemma filterData_narrowing_witness :
  filterData "ALI" (filterData "li" [[("name", "Alice")]; [("name", "Olivia")]; [("name", "Bob")]]) =
  filterData "ALI" [[("name", "Alice")]; [("name", "Olivia")]; [("name", "Bob")]].
Proof.
  apply (filterData_narrowing "li" "ALI").
  exists "a", "". reflexivity.
Defined.

(* ================================================================== *)
(** * Properties of the page *)

(** ** Polling *)

Lemma startPolling_timers p :
  oneTimerAtMost (timers p) ->
  exists id, id <> 0%N /\
             dataIntervalId (timers (startPolling p)) = Some id /\
             intervals (timers (startPolling p)) = [id].
Proof.
  unfold startPolling. intros [[Hid Hint]|(id0 & Hne & Hid & Hint)]; rewrite Hid; simpl.
  - exists (lastTimerId (timers p) + 1)%N. rewrite Hint.
    repeat split. lia.
  - apply N.eqb_neq in Hne as Hz. rewrite Hz. simpl. rewrite Hint. simpl.
    rewrite N.eqb_refl. simpl.
    exists (lastTimerId (timers p) + 1)%N. repeat split. lia.
Qed.

Lemma stopPolling_timers p :
  oneTimerAtMost (timers p) ->
  dataIntervalId (timers (stopPolling p)) = None /\
  intervals (timers (stopPolling p)) = [].
Proof.
  unfold stopPolling. intros [[Hid Hint]|(id0 & Hne & Hid & Hint)]; rewrite Hid; simpl.
  - now split.
  - apply N.eqb_neq in Hne as Hz. rewrite Hz. simpl. rewrite Hint. simpl.
    now rewrite N.eqb_refl.
Qed.

Lemma startPolling_document p : document (startPolling p) = document p.
Proof. reflexivity. Qed.

Lemma stopPolling_document p : document (stopPolling p) = document p.
Proof. unfold stopPolling. now destruct (timerIdSet _). Qed.

Lemma switchScreen_matches target p :
  oneTimerAtMost (timers p) -> pollingMatchesScreen (switchScreen target p).
Proof.
  intros H. unfold pollingMatchesScreen.
  destruct target; unfold switchScreen.
  - rewrite stopPolling_document. simpl. now apply stopPolling_timers.
  - simpl. now apply (startPolling_timers
                        (setDocument (setActiveScreen (Some DoctorsScreen) (document p)) p)).
  - simpl. now apply (startPolling_timers
                        (setDocument (setActiveScreen (Some DatabaseScreen) (document p)) p)).
Qed.

Lemma matches_oneTimer p : pollingMatchesScreen p -> oneTimerAtMost (timers p).
Proof.
  unfold pollingMatchesScreen, oneTimerAtMost.
  destruct (activeScreen (document p)) as [[| |]|]; tauto.
Qed.

Lemma loadBegin_matches p : pollingMatchesScreen p -> pollingMatchesScreen (loadBegin p).
Proof. unfold loadBegin. now destruct (_ && _)%bool. Qed.

Lemma loadComplete_on_data r1 r2 p :
  activeScreen (document p) = Some DoctorsScreen \/
  activeScreen (document p) = Some DatabaseScreen ->
  loadComplete r1 r2 p =
  setDatasets {| doctorsData := r1; databaseData := r2 |} p.
Proof.
  intros H. unfold loadComplete. cbv zeta.
  change (document (setDatasets {| doctorsData := r1; databaseData := r2 |} p))
    with (document p).
  destruct H as [-> | ->]; reflexivity.
Qed.

Lemma loadComplete_on_home r1 r2 p :
  activeScreen (document p) = Some HomeScreen ->
  loadComplete r1 r2 p =
  switchScreen HomeScreen (setDatasets {| doctorsData := r1; databaseData := r2 |} p).
Proof.
  intros H. unfold loadComplete. cbv zeta.
  change (document (setDatasets {| doctorsData := r1; databaseData := r2 |} p))
    with (document p).
  rewrite H. reflexivity.
Qed.

Lemma loadComplete_matches r1 r2 p :
  pollingMatchesScreen p -> pollingMatchesScreen (loadComplete r1 r2 p).
Proof.
  intros H.
  destruct (activeScreen (document p)) as [[| |]|] eqn:E.
  - rewrite (loadComplete_on_home r1 r2 p E).
    apply switchScreen_matches. now apply matches_oneTimer in H.
  - rewrite (loadComplete_on_data r1 r2 p (or_introl E)). exact H.
  - rewrite (loadComplete_on_data r1 r2 p (or_intror E)). exact H.
  - unfold pollingMatchesScreen in H. now rewrite E in H.
Qed.

Lemma handle_matches e p : pollingMatchesScreen p -> pollingMatchesScreen (handle e p).
Proof.
  intros H. destruct e; simpl.
  - now apply switchScreen_matches, matches_oneTimer.
  - exact H.
  - exact H.
  - now apply loadBegin_matches.
  - now apply loadComplete_matches.
Qed.

(** X17.  From the moment the page is loaded, whatever the user clicks and
    types and whenever loads start and end, polling goes with the screen: on
    the home screen no timer is set, on a data screen exactly one, the one
    [dataIntervalId] names.  Timers never pile up. *)
Theorem polling_matches_screen (p0 : page) (events : list ui_event) :
  oneTimerAtMost (timers p0) ->
  pollingMatchesScreen (run events (onload p0)).
Proof.
  intros H0.
  assert (H : pollingMatchesScreen (onload p0)).
  { apply loadBegin_matches, switchScreen_matches, H0. }
  unfold run. revert H. generalize (onload p0).
  induction events as [|e events IH]; intros p H; simpl; [exact H|].
  apply IH. now apply handle_matches.
Qed.

Lemma polling_matches_screen_witness :
  pollingMatchesScreen
    (run [Click DoctorsScreen; LoadStarts; Click DatabaseScreen;
          LoadEnds [[("name", "Dr. Osei")]] []; DoctorSearchTyped "os"]
         (onload (scriptStart freshView 41))).
Proof.
  apply (polling_matches_screen (scriptStart freshView 41)).
  left. split; reflexivity.
Defined.

(** ** Loads and the tables *)

(** X18.  A load that ends while a data screen is shown stores the two
    results and draws nothing: the name the redraw derives from the active
    element's id is [doctors-profile] or [database-access], which none of its
    three cases matches.  The tables and the search boxes stay as they
    were. *)
Theorem load_on_data_screen_draws_nothing (doctorsResult databaseResult : list object)
    (p : page) :
  activeScreen (document p) = Some DoctorsScreen \/
  activeScreen (document p) = Some DatabaseScreen ->
  document (loadComplete doctorsResult databaseResult p) = document p /\
  timers (loadComplete doctorsResult databaseResult p) = timers p /\
  datasets (loadComplete doctorsResult databaseResult p) =
    {| doctorsData := doctorsResult; databaseData := databaseResult |}.
Proof.
  intros H. rewrite (loadComplete_on_data _ _ p H). repeat split.
Qed.

Lemma load_on_data_screen_draws_nothing_witness :
  document (loadComplete [[("name", "Dr. Osei")]] []
              (switchScreen DoctorsScreen (scriptStart freshView 0))) =
  document (switchScreen DoctorsScreen (scriptStart freshView 0)).
Proof.
  apply (load_on_data_screen_draws_nothing [[("name", "Dr. Osei")]] []
           (switchScreen DoctorsScreen (scriptStart freshView 0))).
  left. reflexivity.
Defined.

(** X19.  A load that starts on a data screen while both datasets are empty
    puts the loading placeholders in the two tables, and they are still there
    when it ends, whatever it brought: the table shows [Loading doctor
    data...] over a dataset that is loaded. *)
Theorem loading_placeholder_stays (doctorsResult databaseResult : list object)
    (p : page) :
  activeScreen (document p) = Some DoctorsScreen \/
  activeScreen (document p) = Some DatabaseScreen ->
  doctorsData (datasets p) = [] ->
  databaseData (datasets p) = [] ->
  doctorTableBody (document (loadComplete doctorsResult databaseResult (loadBegin p)))
    = doctorsLoading /\
  databaseTableBody (document (loadComplete doctorsResult databaseResult (loadBegin p)))
    = patientsLoading /\
  doctorsData (datasets (loadComplete doctorsResult databaseResult (loadBegin p)))
    = doctorsResult.
Proof.
  intros Hscreen Hd Hp.
  assert (E : loadBegin p =
              setDocument (setDatabaseTableBody patientsLoading
                             (setDoctorTableBody doctorsLoading (document p))) p).
  { unfold loadBegin. now rewrite Hd, Hp. }
  rewrite E, loadComplete_on_data; [repeat split|].
  exact Hscreen.
Qed.

Lemma loading_placeholder_stays_witness :
  doctorTableBody
    (document (loadComplete [[("name", "Dr. Osei")]] []
                 (loadBegin (switchScreen DoctorsScreen (scriptStart freshView 0)))))
    = doctorsLoading.
Proof.
  apply (loading_placeholder_stays [[("name", "Dr. Osei")]] []
           (switchScreen DoctorsScreen (scriptStart freshView 0))).
  - left. reflexivity.
  - reflexivity.
  - reflexivity.
Defined.

(** ** Search boxes *)

(** X20.  A search box that holds white space only shows the whole dataset:
    the query is trimmed, and the empty query keeps every record that has a
    field. *)
Theorem blank_search_shows_all (value : string) (p : page) :
  isBlank value = true ->
  (Forall (fun item => item <> []) (doctorsData (datasets p)) ->
   doctorTableBody (document (handle (DoctorSearchTyped value) p)) =
   doctorsTableOf (doctorsData (datasets p))) /\
  (Forall (fun item => item <> []) (databaseData (datasets p)) ->
   databaseTableBody (document (handle (DatabaseSearchTyped value) p)) =
   databaseTableOf (databaseData (datasets p))).
Proof.
  intros Hblank. unfold isBlank in Hblank. apply String.eqb_eq in Hblank.
  split; intros Hne; simpl; unfold handleDoctorSearch, handleDatabaseSearch; simpl;
    rewrite Hblank, (filterData_empty_query_keeps _ Hne); reflexivity.
Qed.

Lemma blank_search_shows_all_witness :
  doctorTableBody
    (document (handle (DoctorSearchTyped "   ")
                 (loadComplete [[("name", "Dr. Osei")]] [] (scriptStart freshView 0)))) =
  doctorsTableOf [[("name", "Dr. Osei")]].
Proof.
  apply (blank_search_shows_all "   "
           (loadComplete [[("name", "Dr. Osei")]] [] (scriptStart freshView 0))).
  - reflexivity.
  - repeat constructor. discriminate.
Defined.

(** ** Rows *)

Lemma append_nil_r (s : string) : s ++ EmptyString = s.
Proof. induction s as [|c s IH]; simpl; [reflexivity | now rewrite IH]. Qed.

Lemma concat_cons (a : string) (l : list string) :
  String.concat EmptyString (a :: l) = a ++ String.concat EmptyString l.
Proof. destruct l; simpl; [now rewrite append_nil_r | reflexivity]. Qed.

Lemma concat_member (g : string -> string) (l : list string) (x : string) :
  In x l -> isSubstring (g x) (String.concat EmptyString (map g l)).
Proof.
  induction l as [|a l IH]; [intros []|].
  intros [->|Hin]; simpl map; rewrite concat_cons.
  - exists EmptyString, (String.concat EmptyString (map g l)). reflexivity.
  - destruct (IH Hin) as [pre [post E]]. rewrite E.
    exists (g a ++ pre), post. now rewrite string_app_assoc.
Qed.

Lemma orEmpty_own k item v :
  obj_get k item = Some v -> orEmpty (readProperty k item) = v.
Proof.
  intros H. unfold readProperty, orEmpty. rewrite H. simpl.
  destruct (String.eqb_spec v EmptyString) as [->|_]; reflexivity.
Qed.

(** X21.  A row shows the values as they are: the value of a displayed field
    stands in the row's markup between [<td>] and [</td>] without any
    escaping, so that markup in a cell of the sheet becomes markup of the
    page. *)
Theorem row_shows_value_unescaped (columns : list string) (item : object)
    (k v : string) :
  In k columns ->
  obj_get k item = Some v ->
  isSubstring ("<td>" ++ v ++ "</td>") (tableRow columns item).
Proof.
  intros Hk Hv. unfold tableRow, rowMarkup. rewrite map_map.
  pose proof (concat_member
                (fun k => "            <td>" ++ orEmpty (readProperty k item)
                          ++ "</td>" ++ String LF EmptyString)
                columns k Hk) as [pre [post E]].
  rewrite E, (orEmpty_own k item v Hv).
  exists (String LF EmptyString ++ pre ++ "            "),
         (String LF EmptyString ++ post ++ "        ").
  rewrite !string_app_assoc. reflexivity.
Qed.

Lemma row_shows_value_unescaped_witness :
  isSubstring ("<td>" ++ "<b onclick=x()>Dr</b>" ++ "</td>")
              (tableRow doctorColumns [("name", "<b onclick=x()>Dr</b>")]).
Proof.
  apply (row_shows_value_unescaped doctorColumns
           [("name", "<b onclick=x()>Dr</b>")] "name" "<b onclick=x()>Dr</b>").
  - left. reflexivity.
  - reflexivity.
Defined.

(** ** A poll on the page *)

Lemma loadComplete_datasets r1 r2 p :
  datasets (loadComplete r1 r2 p) = {| doctorsData := r1; databaseData := r2 |}.
Proof.
  destruct (activeScreen (document p)) as [[| |]|] eqn:E.
  - rewrite (loadComplete_on_home r1 r2 p E). unfold switchScreen, stopPolling.
    now destruct (timerIdSet _).
  - now rewrite (loadComplete_on_data r1 r2 p (or_introl E)).
  - now rewrite (loadComplete_on_data r1 r2 p (or_intror E)).
  - unfold loadComplete. cbv zeta.
    change (document (setDatasets {| doctorsData := r1; databaseData := r2 |} p))
      with (document p).
    rewrite E. unfold switchScreen, stopPolling. simpl.
    now destruct (timerIdSet _).
Qed.

Lemma loadBegin_datasets p : datasets (loadBegin p) = datasets p.
Proof. unfold loadBegin. now destruct (_ && _)%bool. Qed.

(** The page's datasets after a run are the state that [fetchAndLoadData]
    computes from the datasets before. *)
Lemma fetchAndLoadDataOn_datasets net now1 now2 p :
  outcome (fetchAndLoadData net now1 now2 (datasets p)) =
  Some (datasets (fetchAndLoadDataOn net now1 now2 p)).
Proof.
  unfold fetchAndLoadDataOn.
  destruct (fetchData_returns net now1 DOCTORS_DB_URL) as [r1 E1].
  destruct (fetchData_returns net now2 PATIENT_DB_URL) as [r2 E2].
  rewrite E1, E2, loadComplete_datasets.
  now apply fetchAndLoadData_outcome.
Qed.

(** X14.  When both fetches of a poll fail while a data screen shows a table
    of a loaded dataset, the two arrays are emptied and the page is not
    touched: the table goes on showing the rows of data that are no longer
    held. *)
Theorem failed_poll_leaves_table (net : string -> fetch_outcome) (now1 now2 : N)
    (p : page) :
  activeScreen (document p) = Some DoctorsScreen \/
  activeScreen (document p) = Some DatabaseScreen ->
  doctorsData (datasets p) <> [] \/ databaseData (datasets p) <> [] ->
  fetchFails (net (cacheBusterUrl DOCTORS_DB_URL now1)) ->
  fetchFails (net (cacheBusterUrl PATIENT_DB_URL now2)) ->
  document (fetchAndLoadDataOn net now1 now2 p) = document p /\
  datasets (fetchAndLoadDataOn net now1 now2 p) =
    {| doctorsData := []; databaseData := [] |}.
Proof.
  intros Hscreen Hdata Hf1 Hf2. unfold fetchAndLoadDataOn.
  rewrite (fetchData_on_failure net now1 DOCTORS_DB_URL Hf1).
  rewrite (fetchData_on_failure net now2 PATIENT_DB_URL Hf2).
  simpl outcome. cbv iota.
  assert (E : loadBegin p = p).
  { unfold loadBegin.
    destruct (doctorsData (datasets p)), (databaseData (datasets p));
      try reflexivity. destruct Hdata as [H|H]; now contradiction H. }
  rewrite E, (loadComplete_on_data [] [] p Hscreen). now split.
Qed.

Lemma failed_poll_leaves_table_witness :
  document (fetchAndLoadDataOn offline 5 6
              (switchScreen DoctorsScreen
                 (loadComplete [[("name", "Dr. Osei")]] [] (scriptStart freshView 0)))) =
  document (switchScreen DoctorsScreen
              (loadComplete [[("name", "Dr. Osei")]] [] (scriptStart freshView 0))).
Proof.
  apply (failed_poll_leaves_table offline 5 6
           (switchScreen DoctorsScreen
              (loadComplete [[("name", "Dr. Osei")]] [] (scriptStart freshView 0)))).
  - left. reflexivity.
  - left. discriminate.
  - exact I.
  - exact I.
Defined.
